(** * The Room coordinator of anyone-can-draw (api/room.ts)

    A shallow embedding of the [Room] durable object: the persisted
    [RoomData] record, the in-memory session registry, the round timer
    and every handler of [api/room.ts], followed by the properties of
    the game state machine.

    Modelling conventions.
    - A JavaScript [number] is an exact rational ([Q]).  IEEE rounding,
      [NaN] and the infinities are outside the model, so a statement
      that divides assumes a non-zero divisor.
    - A JavaScript string is a Rocq [string]; each character stands for
      one code unit below 256.
    - A value that may be [undefined] is an [option].
    - A plain object used as a dictionary ([Record<string, T>]) is an
      association list in property order.  Names that collide with
      members of [Object.prototype] are outside the model.
    - [storage.get] hands out a copy of the stored record and
      [storage.put] replaces it; a handler works on its copy and the
      store changes only at a [put].
    - [Math.random], [Date.now] and the identifier returned by
      [setInterval] are inputs, collected in [Env]. *)

From Stdlib Require Import List String Ascii Bool NArith ZArith.
From Stdlib Require Import QArith Qround Lia Lqa.
Import ListNotations.

Local Open Scope string_scope.

(** ** JavaScript primitives *)

Module Js.

(** White space removed by [String.prototype.trim], below code unit 256:
    TAB, LF, VT, FF, CR, SPACE and NBSP. *)
Definition is_space (c : ascii) : bool :=
  let n := N_of_ascii c in
  ((9 <=? n) && (n <=? 13) || (n =? 32) || (n =? 160))%N.

Fixpoint trimStart (s : string) : string :=
  match s with
  | EmptyString => EmptyString
  | String c s' => if is_space c then trimStart s' else s
  end.

Fixpoint trimEnd (s : string) : string :=
  match s with
  | EmptyString => EmptyString
  | String c s' =>
      match trimEnd s' with
      | EmptyString => if is_space c then EmptyString else String c EmptyString
      | t => String c t
      end
  end.

Definition trim (s : string) : string := trimEnd (trimStart s).

(** [toLowerCase] on code units below 256: A-Z and the Latin-1 capitals
    (all of 0xC0-0xDE but the multiplication sign 0xD7) move up by 32. *)
Definition lower_char (c : ascii) : ascii :=
  let n := N_of_ascii c in
  if ((65 <=? n) && (n <=? 90))%N then ascii_of_N (n + 32)
  else if ((192 <=? n) && (n <=? 222) && negb (n =? 215))%N
       then ascii_of_N (n + 32)
       else c.

Fixpoint toLowerCase (s : string) : string :=
  match s with
  | EmptyString => EmptyString
  | String c s' => String (lower_char c) (toLowerCase s')
  end.

(** Truthiness of a number and the idiom [x || d]. *)
Definition truthy (q : Q) : bool := negb (Qeq_bool q 0).

Definition num_or (x : option Q) (d : Q) : Q :=
  match x with
  | Some q => if truthy q then q else d
  | None => d
  end.

(** Truthiness of a possibly undefined string. *)
Definition truthy_str (s : option string) : bool :=
  match s with
  | Some EmptyString | None => false
  | Some _ => true
  end.

(** [a === b] where [a] may be undefined and [b] is a string. *)
Definition str_eq (a : option string) (b : string) : bool :=
  match a with
  | Some x => String.eqb x b
  | None => false
  end.

Definition lt (a b : Q) : bool := negb (Qle_bool b a).
Definition le (a b : Q) : bool := Qle_bool a b.

(** [Math.round]: the nearest integer, ties towards plus infinity. *)
Definition round (q : Q) : Q := inject_Z (Qfloor (q + (1 # 2))).

(** [Math.max(a, b)]. *)
Definition max (a b : Q) : Q := if Qle_bool a b then b else a.

(** [Math.random()] is a double in [0, 1): a multiple of 2^-53. *)
Definition random (k : N) : Q :=
  Z.of_N (k mod 2 ^ 53) # 2 ^ 53.

(** [arr[Math.floor(Math.random() * arr.length)]]. *)
Definition random_element {A : Type} (arr : list A) (k : N) : option A :=
  nth_error arr
    (Z.to_nat (Qfloor (random k * inject_Z (Z.of_nat (List.length arr))))).

Definition len {A : Type} (arr : list A) : Q :=
  inject_Z (Z.of_nat (List.length arr)).

End Js.

(** ** Dictionaries: [Record<string, T>] *)

Module Dict.

Section Ops.
Context {V : Type}.

Definition t := list (string * V).

Fixpoint get (d : t) (k : string) : option V :=
  match d with
  | [] => None
  | (k', v) :: d' => if String.eqb k' k then Some v else get d' k
  end.

(** [d[k] = v]: an existing property keeps its place, a new one is
    created last. *)
Fixpoint set (d : t) (k : string) (v : V) : t :=
  match d with
  | [] => [(k, v)]
  | (k', v') :: d' =>
      if String.eqb k' k then (k', v) :: d' else (k', v') :: set d' k v
  end.

(** A property name that is a canonical array index (an integer below
    2^32 - 1 in decimal without leading zero) is enumerated before the
    other names, in increasing numeric order. *)
Definition digit (c : ascii) : option N :=
  let n := N_of_ascii c in
  if ((48 <=? n) && (n <=? 57))%N then Some (n - 48)%N else None.

Fixpoint digits (acc : N) (s : string) : option N :=
  match s with
  | EmptyString => Some acc
  | String c s' =>
      match digit c with
      | Some d => digits (acc * 10 + d)%N s'
      | None => None
      end
  end.

Definition array_index (s : string) : option N :=
  match s with
  | EmptyString => None
  | String c EmptyString => digit c
  | String c _ =>
      if Ascii.eqb c "0"%char then None
      else match digits 0%N s with
           | Some n => if (n <? 2 ^ 32 - 1)%N then Some n else None
           | None => None
           end
  end.

Fixpoint insert_index (n : N) (e : string * V)
         (l : list (N * (string * V))) : list (N * (string * V)) :=
  match l with
  | [] => [(n, e)]
  | (m, e') :: l' =>
      if (n <? m)%N then (n, e) :: l else (m, e') :: insert_index n e l'
  end.

Fixpoint index_entries (d : t) : list (N * (string * V)) :=
  match d with
  | [] => []
  | e :: d' =>
      match array_index (fst e) with
      | Some n => insert_index n e (index_entries d')
      | None => index_entries d'
      end
  end.

Definition is_index (s : string) : bool :=
  match array_index s with Some _ => true | None => false end.

(** [Object.entries(d)]. *)
Definition entries (d : t) : list (string * V) :=
  map snd (index_entries d)
  ++ filter (fun e => negb (is_index (fst e))) d.

End Ops.

Arguments t : clear implicits.

End Dict.

(** ** The data model (interfaces [RoomData], [SessionInfo]) *)

Record Settings := mkSettings {
  gameDuration : Q;
  minPlayers : Q;
  maxPlayers : Q;
  aiEnabled : option bool;
  aiGuessCooldown : option Q;
  correctGuesserScore : option Q;
  correctDrawerScore : option Q
}.

(** [Partial<RoomData['settings']>]: a field is present or not. *)
Record SettingsPatch := mkPatch {
  p_gameDuration : option Q;
  p_minPlayers : option Q;
  p_maxPlayers : option Q;
  p_aiEnabled : option bool;
  p_aiGuessCooldown : option Q;
  p_correctGuesserScore : option Q;
  p_correctDrawerScore : option Q
}.

Record Guess := mkGuess {
  playerId : string;
  playerName : string;
  guess : string;
  timestamp : Z;
  correct : bool
}.

Inductive StatusType := Success | Failure.

Record StatusMessage := mkStatus {
  type : StatusType;
  message : string
}.

Record RoomData := mkRoom {
  key : string;
  users : list string;
  moderator : string;
  connectedUsers : Dict.t bool;
  timerInterval : Z;
  lastAIGuessTime : Q;
  isActive : bool;
  isLobby : bool;
  targetWord : option string;
  timeRemaining : Q;
  guesses : list Guess;
  hasWon : bool;
  currentDrawer : option string;
  drawingData : string;
  settings : Settings;
  scores : option (Dict.t Q);
  statusMessage : option StatusMessage;
  endTime : option Q
}.

Record SessionInfo := mkSession {
  webSocket : nat;
  roomKey : string;
  userName : string
}.

(** Field updates of the room record ([roomData.f = v]). *)

Definition set_users (v : list string) (r : RoomData) : RoomData :=
  mkRoom (key r) v (moderator r) (connectedUsers r) (timerInterval r)
    (lastAIGuessTime r) (isActive r) (isLobby r) (targetWord r)
    (timeRemaining r) (guesses r) (hasWon r) (currentDrawer r)
    (drawingData r) (settings r) (scores r) (statusMessage r) (endTime r).

Definition set_moderator (v : string) (r : RoomData) : RoomData :=
  mkRoom (key r) (users r) v (connectedUsers r) (timerInterval r)
    (lastAIGuessTime r) (isActive r) (isLobby r) (targetWord r)
    (timeRemaining r) (guesses r) (hasWon r) (currentDrawer r)
    (drawingData r) (settings r) (scores r) (statusMessage r) (endTime r).

Definition set_connectedUsers (v : Dict.t bool) (r : RoomData) : RoomData :=
  mkRoom (key r) (users r) (moderator r) v (timerInterval r)
    (lastAIGuessTime r) (isActive r) (isLobby r) (targetWord r)
    (timeRemaining r) (guesses r) (hasWon r) (currentDrawer r)
    (drawingData r) (settings r) (scores r) (statusMessage r) (endTime r).

Definition set_timerInterval (v : Z) (r : RoomData) : RoomData :=
  mkRoom (key r) (users r) (moderator r) (connectedUsers r) v
    (lastAIGuessTime r) (isActive r) (isLobby r) (targetWord r)
    (timeRemaining r) (guesses r) (hasWon r) (currentDrawer r)
    (drawingData r) (settings r) (scores r) (statusMessage r) (endTime r).

Definition set_lastAIGuessTime (v : Q) (r : RoomData) : RoomData :=
  mkRoom (key r) (users r) (moderator r) (connectedUsers r) (timerInterval r)
    v (isActive r) (isLobby r) (targetWord r)
    (timeRemaining r) (guesses r) (hasWon r) (currentDrawer r)
    (drawingData r) (settings r) (scores r) (statusMessage r) (endTime r).

Definition set_isActive (v : bool) (r : RoomData) : RoomData :=
  mkRoom (key r) (users r) (moderator r) (connectedUsers r) (timerInterval r)
    (lastAIGuessTime r) v (isLobby r) (targetWord r)
    (timeRemaining r) (guesses r) (hasWon r) (currentDrawer r)
    (drawingData r) (settings r) (scores r) (statusMessage r) (endTime r).

Definition set_isLobby (v : bool) (r : RoomData) : RoomData :=
  mkRoom (key r) (users r) (moderator r) (connectedUsers r) (timerInterval r)
    (lastAIGuessTime r) (isActive r) v (targetWord r)
    (timeRemaining r) (guesses r) (hasWon r) (currentDrawer r)
    (drawingData r) (settings r) (scores r) (statusMessage r) (endTime r).

Definition set_targetWord (v : option string) (r : RoomData) : RoomData :=
  mkRoom (key r) (users r) (moderator r) (connectedUsers r) (timerInterval r)
    (lastAIGuessTime r) (isActive r) (isLobby r) v
    (timeRemaining r) (guesses r) (hasWon r) (currentDrawer r)
    (drawingData r) (settings r) (scores r) (statusMessage r) (endTime r).

Definition set_timeRemaining (v : Q) (r : RoomData) : RoomData :=
  mkRoom (key r) (users r) (moderator r) (connectedUsers r) (timerInterval r)
    (lastAIGuessTime r) (isActive r) (isLobby r) (targetWord r)
    v (guesses r) (hasWon r) (currentDrawer r)
    (drawingData r) (settings r) (scores r) (statusMessage r) (endTime r).

Definition set_guesses (v : list Guess) (r : RoomData) : RoomData :=
  mkRoom (key r) (users r) (moderator r) (connectedUsers r) (timerInterval r)
    (lastAIGuessTime r) (isActive r) (isLobby r) (targetWord r)
    (timeRemaining r) v (hasWon r) (currentDrawer r)
    (drawingData r) (settings r) (scores r) (statusMessage r) (endTime r).

Definition set_hasWon (v : bool) (r : RoomData) : RoomData :=
  mkRoom (key r) (users r) (moderator r) (connectedUsers r) (timerInterval r)
    (lastAIGuessTime r) (isActive r) (isLobby r) (targetWord r)
    (timeRemaining r) (guesses r) v (currentDrawer r)
    (drawingData r) (settings r) (scores r) (statusMessage r) (endTime r).

Definition set_currentDrawer (v : option string) (r : RoomData) : RoomData :=
  mkRoom (key r) (users r) (moderator r) (connectedUsers r) (timerInterval r)
    (lastAIGuessTime r) (isActive r) (isLobby r) (targetWord r)
    (timeRemaining r) (guesses r) (hasWon r) v
    (drawingData r) (settings r) (scores r) (statusMessage r) (endTime r).

Definition set_drawingData (v : string) (r : RoomData) : RoomData :=
  mkRoom (key r) (users r) (moderator r) (connectedUsers r) (timerInterval r)
    (lastAIGuessTime r) (isActive r) (isLobby r) (targetWord r)
    (timeRemaining r) (guesses r) (hasWon r) (currentDrawer r)
    v (settings r) (scores r) (statusMessage r) (endTime r).

Definition set_settings (v : Settings) (r : RoomData) : RoomData :=
  mkRoom (key r) (users r) (moderator r) (connectedUsers r) (timerInterval r)
    (lastAIGuessTime r) (isActive r) (isLobby r) (targetWord r)
    (timeRemaining r) (guesses r) (hasWon r) (currentDrawer r)
    (drawingData r) v (scores r) (statusMessage r) (endTime r).

Definition set_scores (v : option (Dict.t Q)) (r : RoomData) : RoomData :=
  mkRoom (key r) (users r) (moderator r) (connectedUsers r) (timerInterval r)
    (lastAIGuessTime r) (isActive r) (isLobby r) (targetWord r)
    (timeRemaining r) (guesses r) (hasWon r) (currentDrawer r)
    (drawingData r) (settings r) v (statusMessage r) (endTime r).

Definition set_statusMessage (v : option StatusMessage) (r : RoomData)
  : RoomData :=
  mkRoom (key r) (users r) (moderator r) (connectedUsers r) (timerInterval r)
    (lastAIGuessTime r) (isActive r) (isLobby r) (targetWord r)
    (timeRemaining r) (guesses r) (hasWon r) (currentDrawer r)
    (drawingData r) (settings r) (scores r) v (endTime r).

Definition set_endTime (v : option Q) (r : RoomData) : RoomData :=
  mkRoom (key r) (users r) (moderator r) (connectedUsers r) (timerInterval r)
    (lastAIGuessTime r) (isActive r) (isLobby r) (targetWord r)
    (timeRemaining r) (guesses r) (hasWon r) (currentDrawer r)
    (drawingData r) (settings r) (scores r) (statusMessage r) v.

(** The settings every fresh record carries. *)
Definition default_settings : Settings :=
  mkSettings 60 2 10 (Some false) (Some 5000) (Some 10) (Some 5).

(** [{ ...old, ...patch }]. *)
Definition over {A : Type} (old : A) (new : option A) : A :=
  match new with Some v => v | None => old end.

Definition over_opt {A : Type} (old new : option A) : option A :=
  match new with Some v => Some v | None => old end.

Definition merge_settings (old : Settings) (p : SettingsPatch) : Settings :=
  mkSettings
    (over (gameDuration old) (p_gameDuration p))
    (over (minPlayers old) (p_minPlayers p))
    (over (maxPlayers old) (p_maxPlayers p))
    (over_opt (aiEnabled old) (p_aiEnabled p))
    (over_opt (aiGuessCooldown old) (p_aiGuessCooldown p))
    (over_opt (correctGuesserScore old) (p_correctGuesserScore p))
    (over_opt (correctDrawerScore old) (p_correctDrawerScore p)).

(** ** Messages, effects and the state of the object *)

(** Server-to-client messages, by their [type] field.  A [gameState]
    is the room record with [targetWord] overwritten. *)
Inductive Msg :=
| MInitialize (roomData : option RoomData)
| MUserJoined (name : string) (roomData : RoomData)
| MUserConnectionStatus (user : string) (isConnected : bool)
                        (roomData : RoomData)
| MNewModerator (name : string) (roomData : RoomData)
| MSettingsUpdated (new_settings : Settings) (roomData : RoomData)
| MGameStarted (gameState : RoomData)
| MYouAreDrawing (word : option string)
| MTimeUpdate (remaining : Q)
| MNewGuess (player text : string) (time : Z)
| MCorrectGuess (player : string) (new_scores : option (Dict.t Q))
                (status : StatusMessage)
| MDrawingUpdate (data : string)
| MRoundEnd (won : bool) (word : option string)
            (final_scores : option (Dict.t Q)) (status : StatusMessage)
| MError (error : string).

(** What a handler does to the outside: [broadcast(m)] to every
    registered session, or [webSocket.send] on one socket. *)
Inductive Effect :=
| Broadcast (m : Msg)
| Send (ws : nat) (m : Msg).

(** The object: the durable slot ['roomData'], the session map (in
    insertion order) and the intervals that are armed. *)
Record World := mkWorld {
  storage : option RoomData;
  sessions : list SessionInfo;
  intervals : list Z
}.

Definition put (r : RoomData) (w : World) : World :=
  mkWorld (Some r) (sessions w) (intervals w).

(** Inputs a handler draws from its environment. *)
Record Env := mkEnv {
  now : Z;
  rnd1 : N;
  rnd2 : N;
  rnd3 : N;
  intervalId : Z
}.

(** A handler returns normally or throws. *)
Inductive Outcome :=
| Done (w : World) (out : list Effect)
| Threw (error : string).

Notation "x |> f" := (f x) (at level 68, left associativity, only parsing).

(** ** The drawing history (components/DrawingCanvas/index.tsx)

    The undo history of the canvas component: [saveToHistory], [undo],
    [redo], [clearCanvas] and [initCanvas] over the component state
    they read and set ([history], [historyIndex]) and the bitmap of
    the canvas.  Each handler runs in a render that sees the state the
    previous one set.  Of the exceptions the handlers catch, the one
    [getImageData] throws on an empty rectangle is modelled.  The scale
    of a canvas larger than [MAX_DIMENSION] is computed in exact
    rationals. *)

Module Canvas.

Section History.

(** The pixels of a bitmap, and the two canvas primitives that make new
    ones: [drawImage] of a bitmap onto a canvas of another size, and
    [clearRect] of a whole canvas. *)
Variable Pixels : Type.
Variable resample : Pixels -> Z * Z -> Z * Z -> Pixels.
Variable cleared : Z * Z -> Pixels.

Record ImageData := mkImage {
  width : Z;
  height : Z;
  data : Pixels
}.

(** [canvas] is the bitmap of [canvasRef.current], absent when the ref
    or its 2D context is null. *)
Record State := mkState {
  canvas : option ImageData;
  history : list ImageData;
  historyIndex : Z
}.

Definition MAX_HISTORY_SIZE : nat := 20.
Definition MAX_DIMENSION : Z := 2000.

(** [ctx.getImageData(0, 0, w, h)]: an empty rectangle throws. *)
Definition getImageData (c : ImageData) : option ImageData :=
  if (width c =? 0)%Z || (height c =? 0)%Z then None else Some c.

(** [arr.slice(0, e)]. *)
Definition slice_to {A : Type} (l : list A) (e : Z) : list A :=
  if (e <? 0)%Z
  then firstn (Z.to_nat (Z.max (Z.of_nat (List.length l) + e) 0)) l
  else firstn (Z.to_nat e) l.

(** [arr[i]]. *)
Definition at_index {A : Type} (l : list A) (i : Z) : option A :=
  if (i <? 0)%Z then None else nth_error l (Z.to_nat i).

(** The common end of both branches of [saveToHistory]: cut the
    history after the current entry, push the image, shift entries out
    while there are more than [MAX_HISTORY_SIZE], point at the last. *)
Definition remember (img : ImageData) (s : State) : State :=
  let pushed := (slice_to (history s) (historyIndex s + 1) ++ [img])%list in
  let newHistory := skipn (List.length pushed - MAX_HISTORY_SIZE) pushed in
  mkState (canvas s) newHistory (Z.of_nat (List.length newHistory) - 1).

Definition saveToHistory (s : State) : State :=
  match canvas s with
  | None => s
  | Some c =>
      let isLargeCanvas :=
        (MAX_DIMENSION <? width c)%Z || (MAX_DIMENSION <? height c)%Z in
      if isLargeCanvas then
        let scale :=
          inject_Z MAX_DIMENSION
          / inject_Z (Z.max (width c) (height c)) in
        let w := Qfloor (inject_Z (width c) * scale) in
        let h := Qfloor (inject_Z (height c) * scale) in
        match
          getImageData
            (mkImage w h (resample (data c) (width c, height c) (w, h)))
        with
        | Some imageData => remember imageData s
        | None => s
        end
      else
        match getImageData c with
        | Some imageData => remember imageData s
        | None => s
        end
  end.

(** Painting a stored image back: as it is when the sizes agree,
    scaled to the canvas otherwise. *)
Definition restore (imageData c : ImageData) : ImageData :=
  if negb (width imageData =? width c)%Z
     || negb (height imageData =? height c)%Z
  then mkImage (width c) (height c)
               (resample (data imageData)
                         (width imageData, height imageData)
                         (width c, height c))
  else mkImage (width c) (height c) (data imageData).

Definition undo (s : State) : State :=
  if (historyIndex s <=? 0)%Z then s
  else
    match canvas s with
    | None => s
    | Some c =>
        let newIndex := (historyIndex s - 1)%Z in
        match at_index (history s) newIndex with
        | None => s
        | Some imageData =>
            mkState (Some (restore imageData c)) (history s) newIndex
        end
    end.

Definition redo (s : State) : State :=
  if (Z.of_nat (List.length (history s)) - 1 <=? historyIndex s)%Z then s
  else
    match canvas s with
    | None => s
    | Some c =>
        let newIndex := (historyIndex s + 1)%Z in
        match at_index (history s) newIndex with
        | None => s
        | Some imageData =>
            mkState (Some (restore imageData c)) (history s) newIndex
        end
    end.

Definition clearCanvas (s : State) : State :=
  match canvas s with
  | None => s
  | Some c =>
      saveToHistory
        (mkState
           (Some (mkImage (width c) (height c)
                          (cleared (width c, height c))))
           (history s) (historyIndex s))
  end.

Definition initCanvas (s : State) : State :=
  match canvas s with
  | None => s
  | Some c =>
      match getImageData c with
      | Some imageData => mkState (canvas s) [imageData] 0
      | None => mkState (canvas s) [] (-1)
      end
  end.

(** The history is within its bounds and the index points into it (or
    is -1). *)
Definition in_bounds (s : State) : Prop :=
  (List.length (history s) <= MAX_HISTORY_SIZE)%nat
  /\ (-1 <= historyIndex s < Z.of_nat (List.length (history s)))%Z.

(** A canvas that is not empty and not larger than [MAX_DIMENSION]. *)
Definition regular (c : ImageData) : Prop :=
  (0 < width c <= MAX_DIMENSION)%Z /\ (0 < height c <= MAX_DIMENSION)%Z.

End History.

Arguments mkImage {Pixels}.
Arguments width {Pixels}.
Arguments height {Pixels}.
Arguments data {Pixels}.
Arguments mkState {Pixels}.
Arguments canvas {Pixels}.
Arguments history {Pixels}.
Arguments historyIndex {Pixels}.
Arguments getImageData {Pixels}.
Arguments remember {Pixels}.
Arguments saveToHistory {Pixels}.
Arguments restore {Pixels}.
Arguments undo {Pixels}.
Arguments redo {Pixels}.
Arguments clearCanvas {Pixels}.
Arguments initCanvas {Pixels}.
Arguments in_bounds {Pixels}.
Arguments regular {Pixels}.

End Canvas.

(** Sample canvases: a name stands for the pixels. *)

Definition keep_pixels (p : string) (from to : Z * Z) : string := p.
Definition blank_pixels (size : Z * Z) : string := "".

Definition picture_a : Canvas.ImageData string := Canvas.mkImage 300 200 "a".
Definition picture_b : Canvas.ImageData string := Canvas.mkImage 300 200 "b".

(** The canvas shows [picture_b]; [picture_a] is the one stored image. *)
Definition canvas_state : Canvas.State string :=
  Canvas.mkState (Some picture_b) [picture_a] 0.

(** ** The handlers of class [Room] *)

Section Room.

(** The constants of [api/constants.ts] and the two timer primitives a
    Workers runtime may lack ([typeof setInterval], [typeof clearInterval]).
    ([AI_NAMES] is only used for a name that [handleStartGame] draws and
    drops.) *)
Variable GAME_WORDS : list string.
Variable AI_PLAYER_ID : string.
Variable has_setInterval : bool.
Variable has_clearInterval : bool.

(** The record the constructor stores when the slot is empty.  (The
    constructor also repairs a stored record without [connectedUsers];
    the interface makes that field mandatory, so the repair and its
    repetitions in the handlers are not modelled.) *)
Definition empty_room : RoomData :=
  mkRoom "" [] "" [] 0 0 false true (Some "") 0 [] false (Some "") ""
    default_settings None None None.

Definition constructor (stored : option RoomData) : World :=
  mkWorld (Some (match stored with Some r => r | None => empty_room end))
    [] [].

Definition includes (l : list string) (x : string) : bool :=
  existsb (String.eqb x) l.

(** [if (!users.includes(n)) users.push(n); connectedUsers[n] = true]. *)
Definition add_user (n : string) (r : RoomData) : RoomData :=
  (if includes (users r) n then r
   else r |> set_users (users r ++ [n])%list)
  |> set_connectedUsers (Dict.set (connectedUsers r) n true).

Definition quote : string := String (ascii_of_nat 34) EmptyString.

(** A possibly undefined string inside a template literal. *)
Definition shown (s : option string) : string :=
  match s with Some x => x | None => "undefined" end.

Definition handleRoundEnd (roomData : RoomData) (won : bool) (w : World)
  : World * list Effect :=
  let oldWord := targetWord roomData in
  let status :=
    mkStatus (if won then Success else Failure)
      (if won
       then "Everyone guessed correctly! The word was " ++ quote
            ++ shown oldWord ++ quote
       else "Time's up! The word was " ++ quote ++ shown oldWord ++ quote) in
  let r1 := roomData
    |> set_isActive false
    |> set_isLobby true
    |> set_targetWord (Some "")
    |> set_timeRemaining (gameDuration (settings roomData))
    |> set_hasWon won
    |> set_currentDrawer (Some "")
    |> set_endTime None
    |> set_statusMessage (Some status) in
  let clear := has_clearInterval && negb (timerInterval r1 =? 0)%Z in
  let r2 := if clear then r1 |> set_timerInterval 0 else r1 in
  let armed :=
    if clear then remove Z.eq_dec (timerInterval r1) (intervals w)
    else intervals w in
  (mkWorld (Some r2) (sessions w) armed,
   [Broadcast (MRoundEnd won oldWord (scores r2) status)]).

(** [roomData.users.filter(user => user !== roomData.currentDrawer
    && user !== AI_PLAYER_ID)]. *)
Definition nonDrawerPlayers (roomData : RoomData) : list string :=
  filter (fun user => negb (Js.str_eq (currentDrawer roomData) user)
                      && negb (String.eqb user AI_PLAYER_ID))
         (users roomData).

(** The two awards of a correct guess. *)
Definition timeBasedMultiplier (roomData : RoomData) : Q :=
  timeRemaining roomData / gameDuration (settings roomData).

Definition guesserAward (roomData : RoomData) : Q :=
  Js.round (Js.num_or (correctGuesserScore (settings roomData)) 10
            * timeBasedMultiplier roomData * 10) / 10.

Definition drawerAward (roomData : RoomData) : Q :=
  Js.round (Js.num_or (correctDrawerScore (settings roomData)) 5
            * timeBasedMultiplier roomData
            / Js.len (nonDrawerPlayers roomData) * 10) / 10.

(** [scores[k] = (scores[k] || 0) + a]. *)
Definition credit (sc : Dict.t Q) (k : string) (a : Q) : Dict.t Q :=
  Dict.set sc k (Js.num_or (Dict.get sc k) 0 + a).

Definition allNonDrawersGuessedCorrectly (roomData : RoomData) : bool :=
  let playerGuesses := map playerId (filter correct (guesses roomData)) in
  forallb (fun player => includes playerGuesses player)
          (nonDrawerPlayers roomData).

(** The score table after both awards ([if (!scores) scores = {}]). *)
Definition scores_or_empty (roomData : RoomData) : Dict.t Q :=
  match scores roomData with Some s => s | None => [] end.

Definition awarded (roomData : RoomData) (userName : string) : Dict.t Q :=
  let sc1 := credit (scores_or_empty roomData) userName
                    (guesserAward roomData) in
  match currentDrawer roomData with
  | Some drawer =>
      if (0 <? List.length (nonDrawerPlayers roomData))%nat
         && Js.truthy_str (currentDrawer roomData)
      then credit sc1 drawer (drawerAward roomData)
      else sc1
  | None => sc1
  end.

Definition handleCorrectGuess (roomData : RoomData) (userName : string)
           (w : World) : World * list Effect :=
  let r1 := roomData |> set_scores (Some (awarded roomData userName)) in
  if allNonDrawersGuessedCorrectly r1 then handleRoundEnd r1 true w
  else
    let status := mkStatus Success (userName ++ " guessed correctly!") in
    let r2 := r1 |> set_statusMessage (Some status) in
    (put r2 w, [Broadcast (MCorrectGuess userName (scores r2) status)]).

Definition handleGuess (userName : string) (text : string) (e : Env)
           (w : World) : Outcome :=
  match storage w with
  | None => Done w []
  | Some roomData =>
      if negb (isActive roomData) then Done w []
      else if Js.str_eq (currentDrawer roomData) userName then Done w []
      else
        match targetWord roomData with
        | None => Threw "TypeError"
        | Some target =>
            let normalizedGuess := Js.toLowerCase (Js.trim text) in
            let normalizedTarget := Js.toLowerCase target in
            let hit := String.eqb normalizedGuess normalizedTarget in
            let r1 := roomData
              |> set_guesses
                   (guesses roomData
                    ++ [mkGuess userName userName text (now e) hit])%list in
            if hit then
              let (w', out) := handleCorrectGuess r1 userName w in
              Done w' out
            else
              Done (put r1 w) [Broadcast (MNewGuess userName text (now e))]
        end
  end.

Definition handleUpdateSettings (userName : string) (patch : SettingsPatch)
           (w : World) : World * list Effect :=
  match storage w with
  | None => (w, [])
  | Some roomData =>
      if negb (String.eqb (moderator roomData) userName) then (w, [])
      else
        let r1 := roomData
          |> set_settings (merge_settings (settings roomData) patch) in
        (put r1 w, [Broadcast (MSettingsUpdated (settings r1) r1)])
  end.

(** [Object.entries(connectedUsers).filter(([_, c]) => c).map(([u]) => u)]. *)
Definition connected_names (roomData : RoomData) : list string :=
  map fst (filter snd (Dict.entries (connectedUsers roomData))).

(** [startGameTimer]: arms an interval when a round with time left is
    stored.  It is called without [await]; its own exclusive section
    runs after the caller's. *)
Definition startGameTimer (e : Env) (w : World) : World :=
  if negb has_setInterval then w
  else
    match storage w with
    | None => w
    | Some roomData =>
        if isActive roomData && Js.lt 0 (timeRemaining roomData)
        then mkWorld (Some (roomData |> set_timerInterval (intervalId e)))
                     (sessions w) (intervalId e :: intervals w)
        else w
    end.

(** The first session of the drawer, for the private word. *)
Definition drawer_socket (roomData : RoomData) (w : World) : option nat :=
  match
    find (fun s => Js.str_eq (currentDrawer roomData) (userName s))
         (sessions w)
  with
  | Some s => Some (webSocket s)
  | None => None
  end.

(** [scores = {}; for (const user of users) scores[user] = 0]. *)
Definition zero_scores (us : list string) : Dict.t Q :=
  fold_left (fun sc user => Dict.set sc user 0) us [].

Definition handleStartGame (userName : string) (e : Env) (w : World)
  : World * list Effect :=
  match storage w with
  | None => (w, [])
  | Some roomData =>
      if negb (String.eqb (moderator roomData) userName) then (w, [])
      else
        let connectedUsers_ := connected_names roomData in
        if Js.lt (Js.len connectedUsers_) (minPlayers (settings roomData))
        then (w, [])
        else
          let randomWord := Js.random_element GAME_WORDS (rnd1 e) in
          let randomDrawer := Js.random_element connectedUsers_ (rnd2 e) in
          let r1 := roomData
            |> set_isActive true
            |> set_isLobby false
            |> set_targetWord randomWord
            |> set_timeRemaining (gameDuration (settings roomData))
            |> set_guesses []
            |> set_hasWon false
            |> set_currentDrawer randomDrawer
            |> set_endTime
                 (Some (inject_Z (now e)
                        + gameDuration (settings roomData) * 1000))
            |> set_drawingData ""
            |> set_scores (Some (zero_scores (users roomData))) in
          let r2 :=
            match aiEnabled (settings r1) with
            | Some true =>
                (if includes (users r1) AI_PLAYER_ID then r1
                 else r1
                   |> set_users (users r1 ++ [AI_PLAYER_ID])%list
                   |> set_connectedUsers
                        (Dict.set (connectedUsers r1) AI_PLAYER_ID true))
                |> set_scores
                     (Some (Dict.set (zero_scores (users roomData))
                                     AI_PLAYER_ID 0))
            | _ => r1
            end in
          let w1 := startGameTimer e (put r2 w) in
          (w1,
           Broadcast (MGameStarted (r2 |> set_targetWord None))
           :: match drawer_socket r2 w with
              | Some ws => [Send ws (MYouAreDrawing (targetWord r2))]
              | None => []
              end)
  end.

Definition updateGameTimer (w : World) : World * list Effect :=
  match storage w with
  | None => (w, [])
  | Some roomData =>
      if negb (isActive roomData) then (w, [])
      else
        let r1 := roomData
          |> set_timeRemaining (Js.max 0 (timeRemaining roomData - 1)) in
        if Js.le (timeRemaining r1) 0 then handleRoundEnd r1 false w
        else (put r1 w, [Broadcast (MTimeUpdate (timeRemaining r1))])
  end.

(** [processAIGuess]: whatever [handleGuess] throws is caught and
    logged.  The assignment to [lastAIGuessTime] is made on the caller's
    copy of the record, which is not stored again. *)
Definition caught (o : Outcome) (w : World) : World * list Effect :=
  match o with
  | Done w' out => (w', out)
  | Threw _ => (w, [])
  end.

Definition ai_guessed (roomData : RoomData) (word : string) : bool :=
  existsb (fun g => String.eqb (playerId g) AI_PLAYER_ID
                    && String.eqb (guess g) word)
          (guesses roomData).

Definition processAIGuess (roomData : RoomData) (e : Env) (w : World)
  : World * list Effect :=
  let aiHasGuessedCorrectly :=
    existsb (fun g => String.eqb (playerId g) AI_PLAYER_ID && correct g)
            (guesses roomData) in
  if aiHasGuessedCorrectly then (w, [])
  else
    let aiGuessAccuracy := Js.random (rnd1 e) in
    if Js.lt (9 # 10) aiGuessAccuracy then
      match targetWord roomData with
      | Some word => caught (handleGuess AI_PLAYER_ID word e w) w
      | None => (w, [])
      end
    else if Js.lt (7 # 10) aiGuessAccuracy then
      let wrongGuesses :=
        filter (fun word => negb (Js.str_eq (targetWord roomData) word)
                            && negb (ai_guessed roomData word))
               GAME_WORDS in
      match Js.random_element wrongGuesses (rnd2 e) with
      | Some randomWrongGuess =>
          caught (handleGuess AI_PLAYER_ID randomWrongGuess e w) w
      | None => (w, [])
      end
    else (w, []).

Definition handleDrawingUpdate (userName : string) (data : string) (e : Env)
           (w : World) : World * list Effect :=
  match storage w with
  | None => (w, [])
  | Some roomData =>
      if negb (isActive roomData) then (w, [])
      else if negb (Js.str_eq (currentDrawer roomData) userName) then (w, [])
      else
        let r1 := roomData |> set_drawingData data in
        let w1 := put r1 w in
        let due :=
          negb (Js.truthy (lastAIGuessTime r1))
          || Js.le (Js.num_or (aiGuessCooldown (settings r1)) 5000)
                   (inject_Z (now e) - lastAIGuessTime r1) in
        let ai_on :=
          match aiEnabled (settings r1),
                Dict.get (connectedUsers r1) AI_PLAYER_ID with
          | Some true, Some true => due
          | _, _ => false
          end in
        let (w2, out) := if ai_on then processAIGuess r1 e w1 else (w1, []) in
        (w2, (out ++ [Broadcast (MDrawingUpdate data)])%list)
  end.

(** *** Sessions *)

(** [sessions.set(ws, s)] and [sessions.delete(ws)] on the [Map]. *)
Fixpoint sessions_set (l : list SessionInfo) (s : SessionInfo)
  : list SessionInfo :=
  match l with
  | [] => [s]
  | s' :: l' =>
      if (webSocket s' =? webSocket s)%nat then s :: l'
      else s' :: sessions_set l' s
  end.

Definition sessions_delete (l : list SessionInfo) (ws : nat)
  : list SessionInfo :=
  filter (fun s => negb (webSocket s =? ws)%nat) l.

Definition sessions_get (l : list SessionInfo) (ws : nat)
  : option SessionInfo :=
  find (fun s => (webSocket s =? ws)%nat) l.

Definition handleSession (ws : nat) (room name : string) (w : World)
  : World * list Effect :=
  let w0 := mkWorld (storage w)
                    (sessions_set (sessions w) (mkSession ws room name))
                    (intervals w) in
  let (w1, out) :=
    match storage w0 with
    | Some roomData =>
        let r1 := add_user name roomData in
        (put r1 w0, [Broadcast (MUserConnectionStatus name true r1)])
    | None => (w0, [])
    end in
  (w1, (out ++ [Send ws (MInitialize (storage w1))])%list).

(** Client-to-server messages, after [JSON.parse]; [Malformed] is a
    payload on which parsing throws. *)
Inductive ClientMsg :=
| UpdateSettings (patch : SettingsPatch)
| StartGame
| SubmitGuess (text : string)
| UpdateDrawing (data : string)
| Unknown
| Malformed (error : string).

(** The ['message'] listener of the session [s]. *)
Definition onMessage (s : SessionInfo) (m : ClientMsg) (e : Env) (w : World)
  : World * list Effect :=
  match m with
  | UpdateSettings patch => handleUpdateSettings (userName s) patch w
  | StartGame => handleStartGame (userName s) e w
  | SubmitGuess text =>
      match handleGuess (userName s) text e w with
      | Done w' out => (w', out)
      | Threw err => (w, [Send (webSocket s) (MError err)])
      end
  | UpdateDrawing data => handleDrawingUpdate (userName s) data e w
  | Unknown => (w, [])
  | Malformed err => (w, [Send (webSocket s) (MError err)])
  end.

(** [roomData.users.filter(user => roomData.connectedUsers[user])]. *)
Definition connected_in_join_order (roomData : RoomData) : list string :=
  filter (fun user =>
            match Dict.get (connectedUsers roomData) user with
            | Some c => c
            | None => false
            end)
         (users roomData).

(** The ['close'] listener of the session [s]. *)
Definition onClose (s : SessionInfo) (w : World) : World * list Effect :=
  let w0 := mkWorld (storage w) (sessions_delete (sessions w) (webSocket s))
                    (intervals w) in
  let stillConnected :=
    existsb (fun s' => String.eqb (userName s') (userName s)) (sessions w0) in
  if stillConnected then (w0, [])
  else
    match storage w0 with
    | None => (w0, [])
    | Some roomData =>
        let r1 := roomData
          |> set_connectedUsers
               (Dict.set (connectedUsers roomData) (userName s) false) in
        let status := Broadcast (MUserConnectionStatus (userName s) false r1) in
        if String.eqb (userName s) (moderator r1) then
          match connected_in_join_order r1 with
          | first :: _ =>
              let r2 := r1 |> set_moderator first in
              (put r2 w0, [status; Broadcast (MNewModerator first r2)])
          | [] => (put r1 w0, [status])
          end
        else (put r1 w0, [status])
    end.

(** *** The HTTP entry point *)

Inductive Request :=
| Upgrade (room name : option string) (server : nat)
| PostInitialize (room moderator_ : string)
| PostJoin (name : string)
| GetSettings
| PutSettings (name : string) (patch : SettingsPatch)
| PostStartGame (name : string)
| PostSubmitGuess (name text : string)
| PostUpdateDrawing (name data : string)
| GetGameState (name : option string)
| OtherRequest.

Inductive Body :=
| Text (s : string)
| ErrorBody (error : string)
| RoomBody (room : RoomData)
| SettingsBody (s : Settings)
| SuccessBody
| GameStateBody (gameState : RoomData)
| WebSocketBody (client : nat).

Record Response := mkResponse {
  status : Z;
  body : Body
}.

Inductive Reply :=
| Replied (w : World) (out : list Effect) (res : Response)
| Failed (error : string).

(** [!roomData || !roomData.key]. *)
Definition found (w : World) : option RoomData :=
  match storage w with
  | Some roomData =>
      if String.eqb (key roomData) "" then None else Some roomData
  | None => None
  end.

Definition not_found (w : World) : Reply :=
  Replied w [] (mkResponse 404 (ErrorBody "Room not found")).

Definition fresh_room (room moderator_ : string) : RoomData :=
  mkRoom room [moderator_] moderator_ [(moderator_, true)] 0 0 false true
    (Some "") 60 [] false (Some "") "" default_settings None None None.

(** The snapshot of [/game-state]: the word is kept for the drawer. *)
Definition game_state (roomData : RoomData) (name : option string)
  : RoomData :=
  let hideTargetWord :=
    negb (Js.truthy_str name)
    || negb (match name with
             | Some n => Js.str_eq (currentDrawer roomData) n
             | None => false
             end) in
  roomData
  |> set_targetWord (if hideTargetWord then None else targetWord roomData).

Definition fetch (rq : Request) (e : Env) (w : World) : Reply :=
  match rq with
  | Upgrade room name server =>
      match room, name with
      | Some rk, Some un =>
          if Js.truthy_str room && Js.truthy_str name then
            let (w', out) := handleSession server rk un w in
            Replied w' out (mkResponse 101 (WebSocketBody server))
          else
            Replied w []
              (mkResponse 400 (Text "Missing room key or user name"))
      | _, _ =>
          Replied w [] (mkResponse 400 (Text "Missing room key or user name"))
      end
  | PostInitialize room moderator_ =>
      match found w with
      | Some _ =>
          Replied w [] (mkResponse 400 (ErrorBody "Room already exists"))
      | None =>
          let r := fresh_room room moderator_ in
          Replied (put r w) [] (mkResponse 200 (RoomBody r))
      end
  | PostJoin name =>
      match found w with
      | None => not_found w
      | Some roomData =>
          let r1 := add_user name roomData in
          Replied (put r1 w) [Broadcast (MUserJoined name r1)]
                  (mkResponse 200 (RoomBody r1))
      end
  | GetSettings =>
      match found w with
      | None => not_found w
      | Some roomData =>
          Replied w [] (mkResponse 200 (SettingsBody (settings roomData)))
      end
  | PutSettings name patch =>
      match found w with
      | None => not_found w
      | Some roomData =>
          if negb (String.eqb (moderator roomData) name) then
            Replied w []
              (mkResponse 403
                 (ErrorBody "Only the moderator can update settings"))
          else
            let r1 := roomData
              |> set_settings (merge_settings (settings roomData) patch) in
            Replied (put r1 w) [Broadcast (MSettingsUpdated (settings r1) r1)]
                    (mkResponse 200 (SettingsBody (settings r1)))
      end
  | PostStartGame name =>
      match found w with
      | None => not_found w
      | Some roomData =>
          if negb (String.eqb (moderator roomData) name) then
            Replied w []
              (mkResponse 403
                 (ErrorBody "Only the moderator can start the game"))
          else
            let (w', out) := handleStartGame name e w in
            Replied w' out (mkResponse 200 SuccessBody)
      end
  | PostSubmitGuess name text =>
      match found w with
      | None => not_found w
      | Some roomData =>
          if negb (isActive roomData) then
            Replied w [] (mkResponse 400 (ErrorBody "Game is not active"))
          else if Js.str_eq (currentDrawer roomData) name then
            Replied w []
              (mkResponse 400 (ErrorBody "The drawer cannot submit guesses"))
          else
            match handleGuess name text e w with
            | Done w' out => Replied w' out (mkResponse 200 SuccessBody)
            | Threw err => Failed err
            end
      end
  | PostUpdateDrawing name data =>
      match found w with
      | None => not_found w
      | Some roomData =>
          if negb (isActive roomData) then
            Replied w [] (mkResponse 400 (ErrorBody "Game is not active"))
          else if negb (Js.str_eq (currentDrawer roomData) name) then
            Replied w []
              (mkResponse 403
                 (ErrorBody "Only the current drawer can update the drawing"))
          else
            let (w', out) := handleDrawingUpdate name data e w in
            Replied w' out (mkResponse 200 SuccessBody)
      end
  | GetGameState name =>
      match found w with
      | None => not_found w
      | Some roomData =>
          Replied w []
            (mkResponse 200 (GameStateBody (game_state roomData name)))
      end
  | OtherRequest => Replied w [] (mkResponse 404 (Text "Not found"))
  end.

(** *** Serialized operations and reachable states *)

(** What can happen to the object: a request, a message or the closing
    of a registered socket, the firing of an armed interval, and an
    eviction after which the constructor runs again on the stored
    record.  (What the runtime does to the object when an exception
    escapes [fetch] is not modelled: the state is kept.) *)
Inductive Event :=
| Fetch (rq : Request)
| Message (ws : nat) (m : ClientMsg)
| Close (ws : nat)
| Tick (id : Z)
| Evict.

Definition step (ev : Event) (e : Env) (w : World) : World * list Effect :=
  match ev with
  | Fetch rq =>
      match fetch rq e w with
      | Replied w' out _ => (w', out)
      | Failed _ => (w, [])
      end
  | Message ws m =>
      match sessions_get (sessions w) ws with
      | Some s => onMessage s m e w
      | None => (w, [])
      end
  | Close ws =>
      match sessions_get (sessions w) ws with
      | Some s => onClose s w
      | None => (w, [])
      end
  | Tick id =>
      if existsb (Z.eqb id) (intervals w) then updateGameTimer w else (w, [])
  | Evict => (constructor (storage w), [])
  end.

Fixpoint run (evs : list (Event * Env)) (w : World) : World * list Effect :=
  match evs with
  | [] => (w, [])
  | (ev, e) :: evs' =>
      let (w1, out1) := step ev e w in
      let (w2, out2) := run evs' w1 in
      (w2, (out1 ++ out2)%list)
  end.

Inductive reachable : World -> Prop :=
| reachable_new : reachable (constructor None)
| reachable_step (w : World) (ev : Event) (e : Env) :
    reachable w -> reachable (fst (step ev e w)).

(** The phase of a stored record. *)
Definition one_phase (r : RoomData) : Prop := isActive r = negb (isLobby r).

Definition one_phase_stored (w : World) : Prop :=
  forall r, storage w = Some r -> one_phase r.

Definition is_roundEnd (won : bool) (x : Effect) : bool :=
  match x with
  | Broadcast (MRoundEnd b _ _ _) => Bool.eqb b won
  | _ => false
  end.


Definition count (p : Effect -> bool) (out : list Effect) : nat :=
  List.length (filter p out).


Definition active (w : World) : bool :=
  match storage w with Some r => isActive r | None => false end.

(** The two phase flags of the stored record. *)
Definition phase_of (w : World) : option (bool * bool) :=
  match storage w with
  | Some r => Some (isActive r, isLobby r)
  | None => None
  end.

(** A transition that starts no round and ends at most one: from the
    lobby it stays there silently, and [roundEnd] with success goes out
    at most once and leaves the lobby behind it. *)
Definition calm (w w' : World) (out : list Effect) : Prop :=
  (active w = false ->
   active w' = false /\ count (is_roundEnd true) out = 0%nat)
  /\ (count (is_roundEnd true) out <= 1)%nat
  /\ (count (is_roundEnd true) out = 1%nat -> active w' = false).

Definition steady (w w' : World) (out : list Effect) : Prop :=
  calm w w' out /\ (one_phase_stored w -> one_phase_stored w').

(** The events that ask for a new round. *)
Definition is_start (ev : Event) : bool :=
  match ev with
  | Fetch (PostStartGame _) | Message _ StartGame => true
  | _ => false
  end.

Definition no_start (evs : list (Event * Env)) : Prop :=
  forall x, In x evs -> is_start (fst x) = false.

(** [p] has a correct guess on record. *)
Definition guessed_correctly (r : RoomData) (p : string) : Prop :=
  exists g, In g (guesses r) /\ playerId g = p /\ correct g = true.



(** ** Well-formed records and what the operations keep

    Predicates of the further properties: the member lists of a record,
    its guess log, and how one stored record follows another. *)

(** A record a guess may be appended to: the guesser is not the drawer
    and the [correct] flag compares the text with the target word. *)
Definition fair_guess (r : RoomData) (g : Guess) : Prop :=
  currentDrawer r <> Some (playerId g)
  /\ forall t, targetWord r = Some t ->
               correct g
               = String.eqb (Js.toLowerCase (Js.trim (guess g)))
                            (Js.toLowerCase t).

(** The property names of a dictionary. *)
Definition keys {V : Type} (d : Dict.t V) : list string := map fst d.

Definition wf_members (r : RoomData) : Prop :=
  NoDup (users r)
  /\ (forall u, In u (users r) -> Dict.get (connectedUsers r) u <> None)
  /\ (key r <> "" -> In (moderator r) (users r))
  /\ NoDup (keys (connectedUsers r)).

Definition wf_log (r : RoomData) : Prop :=
  isActive r = true -> forall g, In g (guesses r) -> fair_guess r g.

(** From [r] to [r']: the key stays, users join at the end, no
    connection flag disappears, and the moderator stays or is a user. *)
Definition members_evolve (r r' : RoomData) : Prop :=
  key r' = key r
  /\ (exists l, users r' = (users r ++ l)%list
                /\ NoDup l
                /\ (forall n, In n l ->
                              ~ In n (users r)
                              /\ Dict.get (connectedUsers r') n <> None))
  /\ (forall u, Dict.get (connectedUsers r) u <> None ->
                Dict.get (connectedUsers r') u <> None)
  /\ (moderator r' = moderator r \/ In (moderator r') (users r'))
  /\ (NoDup (keys (connectedUsers r)) -> NoDup (keys (connectedUsers r'))).

(** From [r] to [r'] within a round: guesses are appended, each one
    fair, and a round that is active was active before, with the same
    drawer and word. *)
Definition log_evolves (r r' : RoomData) : Prop :=
  (exists l, guesses r' = (guesses r ++ l)%list
             /\ forall g, In g l -> isActive r = true /\ fair_guess r g)
  /\ (isActive r' = true ->
      isActive r = true
      /\ currentDrawer r' = currentDrawer r
      /\ targetWord r' = targetWord r).

Definition evolves (r r' : RoomData) : Prop :=
  members_evolve r r' /\ log_evolves r r'.

(** The member lists and the log are untouched. *)
Definition quiet (r r' : RoomData) : Prop :=
  key r' = key r /\ users r' = users r /\ moderator r' = moderator r
  /\ connectedUsers r' = connectedUsers r /\ guesses r' = guesses r
  /\ drawingData r' = drawingData r
  /\ (isActive r' = true ->
      isActive r = true
      /\ currentDrawer r' = currentDrawer r
      /\ targetWord r' = targetWord r).

(** The stored record of [w'] follows the one of [w]. *)
Definition follows (w w' : World) : Prop :=
  forall r, storage w = Some r ->
            exists r', storage w' = Some r' /\ evolves r r'.

(** A request for [/initialize]. *)
Definition is_initialize (ev : Event) : bool :=
  match ev with
  | Fetch (PostInitialize _ _) => true
  | _ => false
  end.

(** The room record a broadcast carries in its [roomData] field. *)
Definition carried_room (x : Effect) : option RoomData :=
  match x with
  | Broadcast (MUserJoined _ r)
  | Broadcast (MUserConnectionStatus _ _ r)
  | Broadcast (MNewModerator _ r)
  | Broadcast (MSettingsUpdated _ r) => Some r
  | _ => None
  end.

(** Every error answer of a route that misses its room. *)
Definition room_routes (rq : Request) : bool :=
  match rq with
  | PostJoin _ | GetSettings | PutSettings _ _ | PostStartGame _
  | PostSubmitGuess _ _ | PostUpdateDrawing _ _ | GetGameState _ => true
  | _ => false
  end.

(** ** Sample rooms

    Concrete constants, inputs, traces and states used to instantiate
    the properties below. *)

Definition sample_words : list string := ["cat"; "house"; "tree"].
Definition sample_ai : string := "ai-player".
Definition env0 : Env := mkEnv 1000 0 0 0 7.

Definition no_patch : SettingsPatch :=
  mkPatch None None None None None None None.
Definition patch_duration : SettingsPatch :=
  mkPatch (Some 90) None None None None None None.
Definition patch_ai : SettingsPatch :=
  mkPatch None None None (Some true) None None None.

(** Three users in the lobby, alice moderating. *)
Definition room_lobby : RoomData :=
  fresh_room "room1" "alice" |> add_user "bob" |> add_user "carol".

Definition zeroes : Dict.t Q := [("alice", 0); ("bob", 0); ("carol", 0)].

(** The round alice started: she draws "cat". *)
Definition room_round : RoomData :=
  room_lobby
  |> set_isActive true |> set_isLobby false
  |> set_targetWord (Some "cat") |> set_currentDrawer (Some "alice")
  |> set_endTime (Some 61000) |> set_scores (Some zeroes)
  |> set_timerInterval 7.

(** The same round half-way through. *)
Definition room_half : RoomData := room_round |> set_timeRemaining 30.

(** The same round after bob's first correct guess. *)
Definition room_guessed : RoomData :=
  room_round
  |> set_guesses [mkGuess "bob" "bob" "cat" 1000 true]
  |> set_scores
       (Some [("alice", 25 # 10); ("bob", 100 # 10); ("carol", 0)])
  |> set_statusMessage
       (Some (mkStatus Success "bob guessed correctly!")).

(** A round of alice and bob with the AI player enabled. *)
Definition room_ai : RoomData :=
  mkRoom "room1" ["alice"; "bob"; "ai-player"] "alice"
    [("alice", true); ("bob", true); ("ai-player", true)] 7 0 true false
    (Some "cat") 60 [] false (Some "alice") ""
    (mkSettings 60 2 10 (Some true) (Some 5000) (Some 10) (Some 5))
    (Some [("alice", 0); ("bob", 0); ("ai-player", 0)]) None (Some 61000).


(** A round whose moderator and drawer joined under the empty name. *)
Definition room_noname : RoomData :=
  mkRoom "room1" [""; "bob"] "" [("", true); ("bob", true)] 7 0 true false
    (Some "cat") 60 [] false (Some "") "" default_settings
    (Some [("", 0); ("bob", 0)]) None (Some 61000).

Definition alice_socket : SessionInfo := mkSession 0 "room1" "alice".
Definition bob_socket : SessionInfo := mkSession 1 "room1" "bob".
Definition carol_socket : SessionInfo := mkSession 2 "room1" "carol".

Definition world_lobby : World := mkWorld (Some room_lobby) [] [].
Definition world_sockets : World :=
  mkWorld (Some room_lobby) [alice_socket; bob_socket; carol_socket] [].
Definition world_round : World := mkWorld (Some room_round) [] [7%Z].
Definition world_half : World := mkWorld (Some room_half) [] [7%Z].
Definition world_guessed : World := mkWorld (Some room_guessed) [] [7%Z].
Definition world_ai : World := mkWorld (Some room_ai) [] [7%Z].
Definition world_noname : World := mkWorld (Some room_noname) [] [7%Z].

Definition at0 (evs : list Event) : list (Event * Env) :=
  map (fun ev => (ev, env0)) evs.

Definition trace_lobby : list (Event * Env) :=
  at0 [Fetch (PostInitialize "room1" "alice");
       Fetch (PostJoin "bob"); Fetch (PostJoin "carol")].

Definition trace_sockets : list (Event * Env) :=
  at0 [Fetch (PostInitialize "room1" "alice");
       Fetch (Upgrade (Some "room1") (Some "alice") 0);
       Fetch (Upgrade (Some "room1") (Some "bob") 1);
       Fetch (Upgrade (Some "room1") (Some "carol") 2)].

Definition trace_round : list (Event * Env) :=
  (trace_lobby ++ at0 [Fetch (PostStartGame "alice")])%list.

Definition trace_half : list (Event * Env) :=
  (trace_round ++ at0 (repeat (Tick 7) 30))%list.

Definition trace_guessed : list (Event * Env) :=
  (trace_round ++ at0 [Fetch (PostSubmitGuess "bob" "cat")])%list.

Definition trace_ai : list (Event * Env) :=
  at0 [Fetch (PostInitialize "room1" "alice"); Fetch (PostJoin "bob");
       Fetch (PutSettings "alice" patch_ai);
       Fetch (PostStartGame "alice")].


Definition trace_noname : list (Event * Env) :=
  at0 [Fetch (PostInitialize "room1" ""); Fetch (PostJoin "bob");
       Fetch (PostStartGame "")].

(** Further inputs and states, for the further properties. *)

Definition env1 : Env := mkEnv 2000 0 0 0 8.


(** The round of [room_round] in its last second. *)
Definition room_last : RoomData := room_round |> set_timeRemaining 1.
Definition world_last : World := mkWorld (Some room_last) [] [7%Z].

(** A room with its moderator only. *)
Definition room_alone : RoomData := fresh_room "room1" "alice".
Definition world_alone : World := mkWorld (Some room_alone) [] [].

Definition world_new : World := constructor None.


Definition trace_alone : list (Event * Env) :=
  at0 [Fetch (PostInitialize "room1" "alice")].

(** ** Properties *)

(** *** Dictionaries and strings *)

Lemma get_set_same {V : Type} (d : Dict.t V) (k : string) (v : V) :
  Dict.get (Dict.set d k v) k = Some v.
Proof.
  induction d as [|[k' v'] d IH]; simpl.
  - now rewrite String.eqb_refl.
  - destruct (String.eqb k' k) eqn:E; simpl; rewrite E; auto.
Qed.

Lemma get_set_other {V : Type} (d : Dict.t V) (k k' : string) (v : V) :
  k <> k' -> Dict.get (Dict.set d k v) k' = Dict.get d k'.
Proof.
  intros Hne. induction d as [|[k0 v0] d IH]; simpl.
  - destruct (String.eqb_spec k k'); congruence.
  - destruct (String.eqb_spec k0 k) as [->|]; simpl.
    + destruct (String.eqb_spec k k'); congruence.
    + now rewrite IH.
Qed.

Lemma str_eq_true (a : option string) (b : string) :
  Js.str_eq a b = true <-> a = Some b.
Proof.
  destruct a as [x|]; simpl.
  - rewrite String.eqb_eq. split; congruence.
  - split; discriminate.
Qed.

Lemma str_eq_false (a : option string) (b : string) :
  Js.str_eq a b = false <-> a <> Some b.
Proof.
  rewrite <- str_eq_true. destruct (Js.str_eq a b); split; congruence.
Qed.

Lemma includes_In (l : list string) (x : string) :
  includes l x = true <-> In x l.
Proof.
  unfold includes. rewrite existsb_exists. split.
  - intros (y & Hy & E). apply String.eqb_eq in E. now subst.
  - intros H. exists x. split; auto. apply String.eqb_refl.
Qed.

(** *** The timer *)

(** C3. A tick that finds the room in the lobby (not active) changes
    nothing and sends nothing: [updateGameTimer] returns the state as it
    was, with no broadcast, and so does the firing of any interval. *)
Theorem tick_in_lobby_is_noop (w : World) (r : RoomData) :
  storage w = Some r ->
  isActive r = false ->
  updateGameTimer w = (w, [])
  /\ forall id e, step (Tick id) e w = (w, []).
Proof.
  intros Hs Ha.
  assert (H : updateGameTimer w = (w, [])).
  { unfold updateGameTimer. now rewrite Hs, Ha. }
  split; [exact H|].
  intros id e. simpl. rewrite H. now destruct (existsb _ _).
Qed.

(** *** Settings *)

Lemma found_stored (w : World) (r : RoomData) :
  storage w = Some r -> key r <> "" -> found w = Some r.
Proof.
  intros Hs Hk. unfold found. rewrite Hs.
  destruct (String.eqb_spec (key r) ""); congruence.
Qed.

(** C7 (amended). A settings update by anyone but the moderator leaves
    the whole state as it was and broadcasts nothing; over HTTP
    ([PUT /settings] on an initialised room) the requester is answered
    403, over the socket the message is dropped without a reply.  An
    update by the moderator merges the patch into [settings] and
    broadcasts [settingsUpdated]. *)
Theorem settings_update_authority
        (w : World) (r : RoomData) (name : string) (patch : SettingsPatch)
        (e : Env) :
  storage w = Some r ->
  (moderator r <> name ->
     handleUpdateSettings name patch w = (w, [])
     /\ (key r <> "" ->
         fetch (PutSettings name patch) e w
         = Replied w []
             (mkResponse 403
                (ErrorBody "Only the moderator can update settings"))))
  /\ (moderator r = name ->
      let r' := set_settings (merge_settings (settings r) patch) r in
      let out := [Broadcast (MSettingsUpdated
                               (merge_settings (settings r) patch) r')] in
      handleUpdateSettings name patch w = (put r' w, out)
      /\ (key r <> "" ->
          fetch (PutSettings name patch) e w
          = Replied (put r' w) out
              (mkResponse 200
                 (SettingsBody (merge_settings (settings r) patch))))).
Proof.
  intros Hs. split.
  - intros Hne.
    assert (E : String.eqb (moderator r) name = false)
      by (now apply String.eqb_neq).
    split.
    + unfold handleUpdateSettings. now rewrite Hs, E.
    + intros Hk. simpl. rewrite (found_stored w r Hs Hk). now rewrite E.
  - intros Heq.
    assert (E : String.eqb (moderator r) name = true)
      by (now apply String.eqb_eq).
    split.
    + unfold handleUpdateSettings. now rewrite Hs, E.
    + intros Hk. simpl. rewrite (found_stored w r Hs Hk). now rewrite E.
Qed.

(** *** The state snapshot *)

(** C6 (amended). The snapshot of [/game-state] carries the target word
    exactly when the requester gave a non-empty name and that name is
    the current drawer; for every other requester, a missing or an empty
    name included, the word is absent, also during a round. *)
Theorem game_state_hides_word
        (w : World) (r : RoomData) (name : option string) (e : Env) :
  found w = Some r ->
  exists snapshot,
    fetch (GetGameState name) e w
    = Replied w [] (mkResponse 200 (GameStateBody snapshot))
    /\ forall word,
         targetWord snapshot = Some word
         <-> targetWord r = Some word
             /\ exists n, name = Some n /\ n <> ""
                          /\ currentDrawer r = Some n.
Proof.
  intros Hf. exists (game_state r name). split.
  - simpl. now rewrite Hf.
  - intros word. unfold game_state. simpl.
    destruct name as [n|]; simpl.
    + destruct n as [|c n]; simpl.
      * split; [discriminate|]. intros (_ & n & E & Hn & _).
        inversion E. congruence.
      * destruct (Js.str_eq (currentDrawer r) (String c n)) eqn:Ed; simpl.
        -- apply str_eq_true in Ed. split.
           ++ intros H. split; auto. exists (String c n).
              repeat split; auto. discriminate.
           ++ now intros (H & _).
        -- apply str_eq_false in Ed. split; [discriminate|].
           intros (_ & n' & E & _ & Hd). inversion E. subst. congruence.
    + split; [discriminate|]. intros (_ & n & E & _). discriminate.
Qed.

(** *** Guesses *)

Lemma handleRoundEnd_stored (r : RoomData) (won : bool) (w : World) :
  exists r' st,
    storage (fst (handleRoundEnd r won w)) = Some r'
    /\ snd (handleRoundEnd r won w)
       = [Broadcast (MRoundEnd won (targetWord r) (scores r) st)]
    /\ isActive r' = false /\ isLobby r' = true
    /\ guesses r' = guesses r /\ users r' = users r
    /\ scores r' = scores r /\ settings r' = settings r.
Proof.
  unfold handleRoundEnd. simpl.
  destruct (has_clearInterval && _); simpl;
    eexists; eexists; repeat split; reflexivity.
Qed.

Lemma handleCorrectGuess_stored (r : RoomData) (u : string) (w : World) :
  exists r',
    storage (fst (handleCorrectGuess r u w)) = Some r'
    /\ guesses r' = guesses r /\ users r' = users r
    /\ settings r' = settings r /\ scores r' = Some (awarded r u)
    /\ (allNonDrawersGuessedCorrectly r = true
        /\ isActive r' = false /\ isLobby r' = true
        /\ (exists st,
              snd (handleCorrectGuess r u w)
              = [Broadcast (MRoundEnd true (targetWord r)
                                      (Some (awarded r u)) st)])
        \/ allNonDrawersGuessedCorrectly r = false
           /\ isActive r' = isActive r /\ isLobby r' = isLobby r
           /\ timeRemaining r' = timeRemaining r
           /\ currentDrawer r' = currentDrawer r
           /\ targetWord r' = targetWord r
           /\ snd (handleCorrectGuess r u w)
              = [Broadcast (MCorrectGuess u (Some (awarded r u))
                   (mkStatus Success (u ++ " guessed correctly!")))]).
Proof.
  unfold handleCorrectGuess.
  change (allNonDrawersGuessedCorrectly
            (r |> set_scores (Some (awarded r u))))
    with (allNonDrawersGuessedCorrectly r).
  destruct (allNonDrawersGuessedCorrectly r) eqn:Hall.
  - destruct (handleRoundEnd_stored (r |> set_scores (Some (awarded r u)))
                                    true w)
      as (r' & st & Hs & Ho & Ha & Hl & Hg & Hu & Hsc & Hset).
    exists r'. repeat split; auto.
    left. repeat split; auto. exists st. exact Ho.
  - simpl. eexists. repeat split; try reflexivity.
    right. repeat split; reflexivity.
Qed.

(** The guess record [handleGuess] appends. *)
Lemma handleGuess_active
      (u text : string) (e : Env) (w : World) (r : RoomData)
      (target : string) :
  storage w = Some r ->
  isActive r = true ->
  currentDrawer r <> Some u ->
  targetWord r = Some target ->
  let hit := String.eqb (Js.toLowerCase (Js.trim text))
                        (Js.toLowerCase target) in
  let r1 := set_guesses
              (guesses r ++ [mkGuess u u text (now e) hit])%list r in
  handleGuess u text e w
  = if hit
    then Done (fst (handleCorrectGuess r1 u w))
              (snd (handleCorrectGuess r1 u w))
    else Done (put r1 w) [Broadcast (MNewGuess u text (now e))].
Proof.
  intros Hs Ha Hd Ht. unfold handleGuess.
  apply str_eq_false in Hd. rewrite Hs, Ha, Hd, Ht. simpl.
  destruct (String.eqb _ _); [|reflexivity].
  now destruct (handleCorrectGuess _ u w).
Qed.

(** C9. [handleGuess] leaves the state alone and sends nothing when no
    round is active or when the guesser is the current drawer.
    Otherwise (with target word [target]) it appends exactly one record
    to [guesses], for that player and that text, whose [correct] flag is
    set exactly when the trimmed text and the target word are equal up
    to letter case. *)
Theorem submitGuess_records_one_guess
        (u text : string) (e : Env) (w : World) (r : RoomData) :
  storage w = Some r ->
  ((isActive r = false \/ currentDrawer r = Some u) ->
     handleGuess u text e w = Done w [])
  /\ (isActive r = true ->
      currentDrawer r <> Some u ->
      forall target,
        targetWord r = Some target ->
        exists w' out r' g,
          handleGuess u text e w = Done w' out
          /\ storage w' = Some r'
          /\ guesses r' = (guesses r ++ [g])%list
          /\ playerId g = u /\ guess g = text
          /\ (correct g = true
              <-> Js.toLowerCase (Js.trim text) = Js.toLowerCase target)).
Proof.
  intros Hs. split.
  - intros [Ha|Hd]; unfold handleGuess; rewrite Hs.
    + now rewrite Ha.
    + apply str_eq_true in Hd. rewrite Hd. now destruct (isActive r).
  - intros Ha Hd target Ht.
    rewrite (handleGuess_active u text e w r target Hs Ha Hd Ht).
    set (hit := String.eqb _ _).
    set (g := mkGuess u u text (now e) hit).
    assert (Hg : correct g = true
                 <-> Js.toLowerCase (Js.trim text) = Js.toLowerCase target)
      by (simpl; unfold hit; apply String.eqb_eq).
    destruct hit eqn:Hhit.
    + destruct (handleCorrectGuess_stored
                  (set_guesses (guesses r ++ [g])%list r) u w)
        as (r' & Hs' & Hg' & _).
      do 2 eexists. exists r', g.
      repeat split; try reflexivity; try apply Hg; auto.
    + do 2 eexists. exists (set_guesses (guesses r ++ [g])%list r), g.
      repeat split; try reflexivity; try apply Hg; auto.
Qed.

Lemma all_guessed_spec (r : RoomData) :
  allNonDrawersGuessedCorrectly r = true
  <-> forall p, In p (users r) -> currentDrawer r <> Some p ->
                p <> AI_PLAYER_ID -> guessed_correctly r p.
Proof.
  unfold allNonDrawersGuessedCorrectly, nonDrawerPlayers, guessed_correctly.
  rewrite forallb_forall. split.
  - intros H p Hin Hd Hai.
    assert (Hp : includes (map playerId (filter correct (guesses r))) p
                 = true).
    { apply H. apply filter_In. split; auto.
      apply str_eq_false in Hd. rewrite Hd. simpl.
      apply String.eqb_neq in Hai. now rewrite Hai. }
    apply includes_In, in_map_iff in Hp. destruct Hp as (g & Hg & Hing).
    apply filter_In in Hing. exists g. tauto.
  - intros H p Hin. apply filter_In in Hin. destruct Hin as (Hin & Hc).
    apply andb_true_iff in Hc. destruct Hc as (Hd & Hai).
    apply negb_true_iff in Hd, Hai.
    apply str_eq_false in Hd. apply String.eqb_neq in Hai.
    destruct (H p Hin Hd Hai) as (g & Hing & Hp & Hcg).
    apply includes_In, in_map_iff. exists g. split; auto.
    apply filter_In. auto.
Qed.

(** *** Phases along the operations *)

Lemma active_phase (w w' : World) :
  phase_of w' = phase_of w -> active w' = active w.
Proof.
  unfold phase_of, active.
  destruct (storage w'), (storage w); intros H; inversion H; auto.
Qed.

Lemma one_phase_of (w : World) :
  one_phase_stored w
  <-> forall a l, phase_of w = Some (a, l) -> a = negb l.
Proof.
  unfold one_phase_stored, phase_of, one_phase. split.
  - intros H a l. destruct (storage w) as [r|]; [|discriminate].
    intros E. inversion E; subst. now apply H.
  - intros H r Hs. rewrite Hs in H. now apply H.
Qed.

Lemma steady_same (w w' : World) (out : list Effect) :
  phase_of w' = phase_of w ->
  count (is_roundEnd true) out = 0%nat ->
  steady w w' out.
Proof.
  intros Hp Hc. split; [split; [|split]|].
  - intros Ha. rewrite (active_phase _ _ Hp). auto.
  - lia.
  - lia.
  - rewrite !one_phase_of. now rewrite Hp.
Qed.

Lemma steady_lobby (w w' : World) (out : list Effect) :
  phase_of w' = Some (false, true) ->
  (count (is_roundEnd true) out <= 1)%nat ->
  (active w = false -> count (is_roundEnd true) out = 0%nat) ->
  steady w w' out.
Proof.
  intros Hp Hc Hq.
  assert (Ha : active w' = false).
  { unfold active, phase_of in *. destruct (storage w'); [|reflexivity].
    now inversion Hp. }
  split; [split; [|split]|]; auto.
  rewrite !one_phase_of. rewrite Hp. intros _ a l E. now inversion E.
Qed.

Lemma steady_refl (w : World) : steady w w [].
Proof. now apply steady_same. Qed.

Lemma phase_put (w : World) (r r' : RoomData) :
  storage w = Some r ->
  isActive r' = isActive r -> isLobby r' = isLobby r ->
  phase_of (put r' w) = phase_of w.
Proof.
  intros Hs Ha Hl. unfold phase_of. simpl. now rewrite Hs, Ha, Hl.
Qed.

Lemma handleGuess_steady (u text : string) (e : Env) (w w' : World)
      (out : list Effect) :
  handleGuess u text e w = Done w' out -> steady w w' out.
Proof.
  unfold handleGuess.
  destruct (storage w) as [r|] eqn:Hs;
    [|intros H; inversion H; apply steady_refl].
  destruct (isActive r) eqn:Ha; simpl;
    [|intros H; inversion H; apply steady_refl].
  destruct (Js.str_eq (currentDrawer r) u);
    [intros H; inversion H; apply steady_refl|].
  destruct (targetWord r) as [target|]; [|discriminate].
  set (g := mkGuess _ _ _ _ _).
  destruct (String.eqb _ _).
  - destruct (handleCorrectGuess_stored
                (set_guesses (guesses r ++ [g])%list r) u w)
      as (r' & Hs' & _ & _ & _ & _ & Hcase).
    destruct (handleCorrectGuess _ u w) as [w1 out1]. simpl in *.
    intros H; inversion H; subst w1 out1; clear H.
    destruct Hcase as [(_ & Ha' & Hl' & st & Ho)
                      |(_ & Ha' & Hl' & _ & _ & _ & Ho)]; rewrite Ho.
    + apply steady_lobby.
      * unfold phase_of. now rewrite Hs', Ha', Hl'.
      * cbv. lia.
      * unfold active. rewrite Hs, Ha. discriminate.
    + apply steady_same; [|reflexivity].
      unfold phase_of. now rewrite Hs', Hs, Ha', Hl'.
  - intros H; inversion H. apply steady_same; [|reflexivity].
    now apply (phase_put w r).
Qed.

Lemma count_app (p : Effect -> bool) (a b : list Effect) :
  count p (a ++ b)%list = (count p a + count p b)%nat.
Proof. unfold count. now rewrite filter_app, length_app. Qed.

Lemma steady_from (w w1 w2 : World) (out : list Effect) :
  phase_of w1 = phase_of w -> steady w1 w2 out -> steady w w2 out.
Proof.
  intros Hp ((H1 & H2 & H3) & H4).
  rewrite (active_phase _ _ Hp) in H1.
  split; [split; [|split]|]; auto.
  intros Hw. apply H4. rewrite one_phase_of in *. now rewrite Hp.
Qed.

Lemma steady_then_quiet (w w' : World) (out quiet : list Effect) :
  count (is_roundEnd true) quiet = 0%nat ->
  steady w w' out -> steady w w' (out ++ quiet)%list.
Proof.
  intros Hq ((H1 & H2 & H3) & H4).
  split; [split; [|split]|]; auto; rewrite count_app, Hq, Nat.add_0_r; auto.
Qed.

Lemma caught_steady (o : Outcome) (w : World) :
  (forall w' out, o = Done w' out -> steady w w' out) ->
  steady w (fst (caught o w)) (snd (caught o w)).
Proof.
  intros H. destruct o as [w' out|err]; simpl.
  - now apply H.
  - apply steady_refl.
Qed.

Lemma processAIGuess_steady (r : RoomData) (e : Env) (w : World) :
  steady w (fst (processAIGuess r e w)) (snd (processAIGuess r e w)).
Proof.
  unfold processAIGuess.
  destruct (existsb _ (guesses r)); [apply steady_refl|].
  destruct (Js.lt (9 # 10) _).
  - destruct (targetWord r) as [word|]; [|apply steady_refl].
    apply caught_steady. intros w' out. apply handleGuess_steady.
  - destruct (Js.lt (7 # 10) _); [|apply steady_refl].
    destruct (Js.random_element _ _) as [word|]; [|apply steady_refl].
    apply caught_steady. intros w' out. apply handleGuess_steady.
Qed.

Lemma handleDrawingUpdate_steady (u data : string) (e : Env) (w : World) :
  steady w (fst (handleDrawingUpdate u data e w))
           (snd (handleDrawingUpdate u data e w)).
Proof.
  unfold handleDrawingUpdate.
  destruct (storage w) as [r|] eqn:Hs; [|apply steady_refl].
  destruct (isActive r); simpl; [|apply steady_refl].
  destruct (Js.str_eq (currentDrawer r) u); simpl; [|apply steady_refl].
  set (r1 := set_drawingData data r).
  assert (Hp : phase_of (put r1 w) = phase_of w)
    by (now apply (phase_put w r)).
  match goal with
  | |- context [if ?c then _ else _] => destruct c
  end.
  - pose proof (processAIGuess_steady r1 e (put r1 w)) as H.
    destruct (processAIGuess r1 e (put r1 w)) as [w2 out]. simpl in *.
    apply steady_then_quiet; [reflexivity|].
    now apply (steady_from w (put r1 w)).
  - simpl. now apply steady_same.
Qed.

Lemma updateGameTimer_steady (w : World) :
  steady w (fst (updateGameTimer w)) (snd (updateGameTimer w)).
Proof.
  unfold updateGameTimer.
  destruct (storage w) as [r|] eqn:Hs; [|apply steady_refl].
  destruct (isActive r) eqn:Ha; simpl; [|apply steady_refl].
  match goal with
  | |- context [if ?c then _ else _] => destruct c
  end.
  - match goal with
    | |- context [handleRoundEnd ?x false w] =>
        destruct (handleRoundEnd_stored x false w)
          as (r' & st & Hs' & Ho & Ha' & Hl' & _)
    end.
    rewrite Ho. apply steady_lobby.
    + unfold phase_of. now rewrite Hs', Ha', Hl'.
    + cbv. lia.
    + reflexivity.
  - simpl. apply steady_same; [|reflexivity]. now apply (phase_put w r).
Qed.

Lemma handleUpdateSettings_steady (u : string) (p : SettingsPatch)
      (w : World) :
  steady w (fst (handleUpdateSettings u p w))
           (snd (handleUpdateSettings u p w)).
Proof.
  unfold handleUpdateSettings.
  destruct (storage w) as [r|] eqn:Hs; [|apply steady_refl].
  destruct (negb _); [apply steady_refl|].
  simpl. apply steady_same; [|reflexivity]. now apply (phase_put w r).
Qed.

Lemma add_user_phase (n : string) (r : RoomData) :
  isActive (add_user n r) = isActive r /\ isLobby (add_user n r) = isLobby r.
Proof. unfold add_user. now destruct (includes (users r) n). Qed.

Lemma handleSession_steady (ws : nat) (room name : string) (w : World) :
  steady w (fst (handleSession ws room name w))
           (snd (handleSession ws room name w)).
Proof.
  unfold handleSession. cbn -[add_user].
  destruct (storage w) as [r|] eqn:Hs; cbn -[add_user].
  - destruct (add_user_phase name r) as (Ha & Hl).
    apply steady_same; [|reflexivity].
    unfold phase_of. cbn -[add_user]. now rewrite Hs, Ha, Hl.
  - apply steady_same; [|reflexivity]. unfold phase_of. simpl. now rewrite Hs.
Qed.

Lemma onClose_steady (s : SessionInfo) (w : World) :
  steady w (fst (onClose s w)) (snd (onClose s w)).
Proof.
  unfold onClose. simpl.
  destruct (existsb _ _); simpl.
  - apply steady_same; [|reflexivity]. reflexivity.
  - destruct (storage w) as [r|] eqn:Hs; simpl.
    + destruct (String.eqb _ _); simpl.
      * destruct (connected_in_join_order _); simpl;
          (apply steady_same; [|reflexivity]);
          unfold phase_of; simpl; now rewrite Hs.
      * apply steady_same; [|reflexivity].
        unfold phase_of; simpl; now rewrite Hs.
    + apply steady_same; [|reflexivity]. unfold phase_of. simpl.
      now rewrite Hs.
Qed.

Lemma found_some (w : World) (r : RoomData) :
  found w = Some r -> storage w = Some r.
Proof.
  unfold found. destruct (storage w) as [r0|]; [|discriminate].
  destruct (String.eqb _ _); congruence.
Qed.

Lemma fetch_steady (rq : Request) (e : Env) (w w' : World)
      (out : list Effect) (res : Response) :
  is_start (Fetch rq) = false ->
  fetch rq e w = Replied w' out res -> steady w w' out.
Proof.
  intros Hrq. destruct rq; simpl in Hrq; try discriminate; simpl.
  - destruct room as [rk|], name as [un|];
      try (intros H; inversion H; apply steady_refl).
    destruct (_ && _); [|intros H; inversion H; apply steady_refl].
    pose proof (handleSession_steady server rk un w) as Hst.
    destruct (handleSession server rk un w).
    intros H; inversion H; subst. exact Hst.
  - destruct (found w); intros H; inversion H; [apply steady_refl|].
    apply steady_lobby; [reflexivity|cbv; lia|reflexivity].
  - destruct (found w) as [r|] eqn:Hf;
      intros H; inversion H; [|apply steady_refl].
    apply found_some in Hf. destruct (add_user_phase name r) as (Ha & Hl).
    apply steady_same; [|reflexivity]. now apply (phase_put w r).
  - destruct (found w); intros H; inversion H; apply steady_refl.
  - destruct (found w) as [r|] eqn:Hf;
      [|intros H; inversion H; apply steady_refl].
    apply found_some in Hf.
    destruct (negb _); intros H; inversion H; [apply steady_refl|].
    apply steady_same; [|reflexivity]. now apply (phase_put w r).
  - destruct (found w) as [r|] eqn:Hf;
      [|intros H; inversion H; apply steady_refl].
    destruct (negb _); [intros H; inversion H; apply steady_refl|].
    destruct (Js.str_eq _ _); [intros H; inversion H; apply steady_refl|].
    destruct (handleGuess name text e w) as [w1 out1|err] eqn:Hg;
      [|discriminate].
    intros H; inversion H; subst. now apply (handleGuess_steady name text e).
  - destruct (found w) as [r|] eqn:Hf;
      [|intros H; inversion H; apply steady_refl].
    destruct (negb (isActive r));
      [intros H; inversion H; apply steady_refl|].
    destruct (negb (Js.str_eq _ _));
      [intros H; inversion H; apply steady_refl|].
    pose proof (handleDrawingUpdate_steady name data e w) as Hst.
    destruct (handleDrawingUpdate name data e w).
    intros H; inversion H; subst. exact Hst.
  - destruct (found w); intros H; inversion H; apply steady_refl.
  - intros H; inversion H; apply steady_refl.
Qed.

Lemma onMessage_steady (s : SessionInfo) (m : ClientMsg) (e : Env)
      (w : World) :
  m <> StartGame ->
  steady w (fst (onMessage s m e w)) (snd (onMessage s m e w)).
Proof.
  intros Hm. destruct m; simpl; try congruence.
  - apply handleUpdateSettings_steady.
  - destruct (handleGuess (userName s) text e w) as [w1 out1|err] eqn:Hg.
    + now apply (handleGuess_steady (userName s) text e).
    + now apply steady_same.
  - apply handleDrawingUpdate_steady.
  - apply steady_refl.
  - now apply steady_same.
Qed.

Lemma constructor_steady (w : World) : steady w (constructor (storage w)) [].
Proof.
  destruct (storage w) as [r|] eqn:Hs.
  - apply steady_same; [|reflexivity]. unfold phase_of. simpl. now rewrite Hs.
  - apply steady_lobby; [reflexivity|cbv; lia|reflexivity].
Qed.

Lemma step_steady (ev : Event) (e : Env) (w : World) :
  is_start ev = false ->
  steady w (fst (step ev e w)) (snd (step ev e w)).
Proof.
  intros Hev. destruct ev; simpl.
  - destruct (fetch rq e w) as [w1 out1 res|err] eqn:Hf.
    + now apply (fetch_steady rq e w w1 out1 res).
    + apply steady_refl.
  - destruct (sessions_get _ _) as [s|]; [|apply steady_refl].
    apply onMessage_steady. intros ->. discriminate.
  - destruct (sessions_get _ _) as [s|]; [|apply steady_refl].
    apply onClose_steady.
  - destruct (existsb _ _); [|apply steady_refl].
    apply updateGameTimer_steady.
  - apply constructor_steady.
Qed.

(** A start leaves the state alone or stores an active round. *)
Lemma handleStartGame_phase (by_ : string) (e : Env) (w : World) :
  one_phase_stored w -> one_phase_stored (fst (handleStartGame by_ e w)).
Proof.
  intros Hw. unfold handleStartGame.
  destruct (storage w) as [r|] eqn:Hs; [|exact Hw].
  destruct (negb _); [exact Hw|].
  destruct (Js.lt _ _); [exact Hw|].
  cbn [fst]. apply one_phase_of. intros a l.
  unfold startGameTimer, phase_of.
  destruct (negb has_setInterval); cbn [storage put].
  - destruct (aiEnabled _) as [[|]|]; try destruct (includes _ _);
      cbn; intros E; inversion E; reflexivity.
  - destruct (aiEnabled _) as [[|]|]; try destruct (includes _ _);
      cbn; destruct (Js.lt 0 _); cbn; intros E; inversion E; reflexivity.
Qed.

Lemma step_one_phase (ev : Event) (e : Env) (w : World) :
  one_phase_stored w -> one_phase_stored (fst (step ev e w)).
Proof.
  intros Hw. destruct (is_start ev) eqn:Hev.
  - destruct ev as [rq| ws m | | |]; try discriminate.
    + destruct rq; try discriminate. simpl.
      destruct (found w); [|exact Hw].
      destruct (negb _); [exact Hw|].
      pose proof (handleStartGame_phase name e w Hw) as H.
      now destruct (handleStartGame name e w).
    + destruct m; try discriminate. simpl.
      destruct (sessions_get _ _); [|exact Hw].
      now apply handleStartGame_phase.
  - now apply (step_steady ev e w Hev).
Qed.

(** *** One phase at a time *)

(** C8. In every reachable state the stored record is in exactly one
    phase: of the two flags [isActive] and [isLobby] one is set and the
    other is not.  (Reachable: from the constructor on an empty slot by
    any sequence of requests, socket messages, socket closings, ticks
    and evictions.) *)
Theorem exactly_one_phase (w : World) (r : RoomData) :
  reachable w ->
  storage w = Some r ->
  (isActive r = true /\ isLobby r = false)
  \/ (isActive r = false /\ isLobby r = true).
Proof.
  intros Hr Hs.
  assert (H : one_phase_stored w).
  { clear r Hs. induction Hr as [|w ev e _ IH].
    - intros r Hs. simpl in Hs. inversion Hs. reflexivity.
    - now apply step_one_phase. }
  specialize (H r Hs). unfold one_phase in H.
  destruct (isActive r), (isLobby r); simpl in H; try discriminate; auto.
Qed.

(** *** The end of a round *)

Lemma run_cons (ev : Event) (e : Env) (evs : list (Event * Env))
      (w : World) :
  snd (run ((ev, e) :: evs) w)
  = (snd (step ev e w) ++ snd (run evs (fst (step ev e w))))%list.
Proof.
  cbn [run]. destruct (step ev e w) as [w1 out1]. cbn [fst snd].
  now destruct (run evs w1) as [w2 out2].
Qed.

Lemma run_ends_once (evs : list (Event * Env)) :
  no_start evs ->
  forall w,
    (count (is_roundEnd true) (snd (run evs w)) <= 1)%nat
    /\ (active w = false ->
        count (is_roundEnd true) (snd (run evs w)) = 0%nat).
Proof.
  induction evs as [|[ev e] evs IH]; intros Hns w.
  - simpl. split; [cbv; lia|reflexivity].
  - assert (Hev : is_start ev = false) by (apply (Hns (ev, e)); now left).
    assert (Hns' : no_start evs) by (intros x Hx; apply Hns; now right).
    destruct (step_steady ev e w Hev) as ((H1 & H2 & H3) & _).
    destruct (IH Hns' (fst (step ev e w))) as (I1 & I2).
    rewrite run_cons, count_app. split.
    + destruct (count (is_roundEnd true) (snd (step ev e w))) as [|[|n]]
        eqn:Hc; [lia| |lia].
      rewrite (I2 (H3 eq_refl)). lia.
    + intros Ha. destruct (H1 Ha) as (Ha' & Hc). rewrite Hc, (I2 Ha'). lia.
Qed.

(** C2 (amended). In an active round, a correct guess by a player other
    than the drawer ends the round with success exactly when, once the
    guess is recorded, every user other than the drawer and the AI
    player has a correct guess on record; otherwise [correctGuess] is
    broadcast and the round stays active.  Over any sequence of
    operations without a new start, [roundEnd] with success is
    broadcast at most once. *)
Theorem round_ends_on_last_correct_guess
        (u text : string) (e : Env) (w : World) (r : RoomData)
        (target : string) (evs : list (Event * Env)) :
  storage w = Some r ->
  isActive r = true ->
  currentDrawer r <> Some u ->
  targetWord r = Some target ->
  Js.toLowerCase (Js.trim text) = Js.toLowerCase target ->
  no_start evs ->
  (exists w' out r',
     handleGuess u text e w = Done w' out
     /\ storage w' = Some r'
     /\ let everyone :=
          forall p, In p (users r) -> currentDrawer r <> Some p ->
                    p <> AI_PLAYER_ID -> guessed_correctly r' p in
        (everyone ->
         count (is_roundEnd true) out = 1%nat
         /\ isActive r' = false /\ isLobby r' = true)
        /\ (~ everyone ->
            count (is_roundEnd true) out = 0%nat
            /\ (exists sc st, out = [Broadcast (MCorrectGuess u sc st)])
            /\ isActive r' = true /\ isLobby r' = isLobby r))
  /\ (count (is_roundEnd true) (snd (run evs w)) <= 1)%nat.
Proof.
  intros Hs Ha Hd Ht Hhit Hns. split; [|now apply run_ends_once].
  rewrite (handleGuess_active u text e w r target Hs Ha Hd Ht).
  apply String.eqb_eq in Hhit. rewrite Hhit.
  set (r1 := set_guesses _ r).
  destruct (handleCorrectGuess_stored r1 u w)
    as (r' & Hs' & Hg' & _ & _ & _ & Hcase).
  exists (fst (handleCorrectGuess r1 u w)),
         (snd (handleCorrectGuess r1 u w)), r'.
  split; [reflexivity|]. split; [exact Hs'|].
  assert (Hall : allNonDrawersGuessedCorrectly r1 = true
                 <-> forall p, In p (users r) -> currentDrawer r <> Some p ->
                               p <> AI_PLAYER_ID -> guessed_correctly r' p).
  { rewrite all_guessed_spec. unfold guessed_correctly. rewrite Hg'.
    reflexivity. }
  cbv zeta.
  destruct Hcase as [(Hc & Ha' & Hl' & st & Ho)
                    |(Hc & Ha' & Hl' & _ & _ & _ & Ho)]; rewrite Ho.
  - split.
    + intros _. repeat split; auto.
    + intros Hn. exfalso. apply Hn. now apply Hall.
  - split.
    + intros Hev. apply Hall in Hev. congruence.
    + intros _. repeat split; eauto.
Qed.

(** *** Starting a round *)

Lemma lt_spec (a b : Q) : Js.lt a b = true <-> a < b.
Proof.
  unfold Js.lt. rewrite negb_true_iff. split.
  - intros H. apply Qnot_le_lt. intros Hle.
    apply Qle_bool_iff in Hle. congruence.
  - intros H. destruct (Qle_bool b a) eqn:E; [|reflexivity].
    apply Qle_bool_iff in E. exfalso. now apply (Qlt_not_le a b).
Qed.

Lemma lt_false (a b : Q) : Js.lt a b = false <-> b <= a.
Proof.
  unfold Js.lt. rewrite negb_false_iff. apply Qle_bool_iff.
Qed.




(** *** Moderator handoff *)





(** *** Scores *)



Lemma credit_other (sc : Dict.t Q) (k k' : string) (a : Q) :
  k <> k' -> Dict.get (credit sc k a) k' = Dict.get sc k'.
Proof. intros H. unfold credit. now apply get_set_other. Qed.



(** What a correct guess by a player other than the drawer stores. *)
Lemma handleGuess_correct
      (u text : string) (e : Env) (w : World) (r : RoomData)
      (target : string) :
  storage w = Some r ->
  isActive r = true ->
  currentDrawer r <> Some u ->
  targetWord r = Some target ->
  Js.toLowerCase (Js.trim text) = Js.toLowerCase target ->
  let r1 := set_guesses
              (guesses r ++ [mkGuess u u text (now e) true])%list r in
  exists w' out r',
    handleGuess u text e w = Done w' out
    /\ storage w' = Some r'
    /\ guesses r' = guesses r1 /\ users r' = users r
    /\ settings r' = settings r /\ scores r' = Some (awarded r1 u)
    /\ (allNonDrawersGuessedCorrectly r1 = false ->
        isActive r' = true /\ timeRemaining r' = timeRemaining r
        /\ currentDrawer r' = currentDrawer r
        /\ targetWord r' = targetWord r).
Proof.
  intros Hs Ha Hd Ht Hhit r1.
  rewrite (handleGuess_active u text e w r target Hs Ha Hd Ht).
  apply String.eqb_eq in Hhit. rewrite Hhit. fold r1.
  destruct (handleCorrectGuess_stored r1 u w)
    as (r' & Hs' & Hg' & Hu' & Hset' & Hsc' & Hcase).
  do 2 eexists. exists r'. split; [reflexivity|].
  repeat (split; [assumption|]).
  intros Hno.
  destruct Hcase as [(Hc & _)|(_ & Ha' & _ & Ht' & Hd' & Hw' & _)];
    [congruence|].
  repeat split; auto. rewrite Ha'. exact Ha.
Qed.






(** ** Further properties of the handlers *)

(** *** How the stored record evolves *)

Lemma keys_set_In {V : Type} (d : Dict.t V) (k x : string) (v : V) :
  In x (keys (Dict.set d k v)) <-> x = k \/ In x (keys d).
Proof.
  induction d as [|[k' v'] d IH]; simpl.
  - split; [intros [<-|[]]; now left|intros [->|[]]; now left].
  - destruct (String.eqb_spec k' k) as [->|Hne]; simpl.
    + split; [tauto|]. intros [->|H]; tauto.
    + rewrite IH. split; [tauto|]. intros [->|[H|H]]; tauto.
Qed.

Lemma keys_set_NoDup {V : Type} (d : Dict.t V) (k : string) (v : V) :
  NoDup (keys d) -> NoDup (keys (Dict.set d k v)).
Proof.
  induction d as [|[k' v'] d IH]; simpl; intros H.
  - repeat constructor. intros [].
  - inversion H as [|? ? Hn Hd]; subst.
    destruct (String.eqb_spec k' k) as [->|Hne]; simpl.
    + now constructor.
    + constructor; [|now apply IH].
      rewrite keys_set_In. intros [E|Hin]; [congruence|now apply Hn].
Qed.

Lemma evolves_refl (r : RoomData) : evolves r r.
Proof.
  split; [split; [reflexivity|split; [|split; [|split]]]|split].
  - exists []. rewrite app_nil_r. split; [reflexivity|].
    split; [constructor|]. intros n [].
  - auto.
  - now left.
  - auto.
  - exists []. rewrite app_nil_r. split; [reflexivity|]. intros g [].
  - auto.
Qed.

Lemma quiet_evolves (r r' : RoomData) : quiet r r' -> evolves r r'.
Proof.
  intros (Hk & Hu & Hm & Hc & Hg & _ & Ha).
  split; [split; [exact Hk|split; [|split; [|split]]]|split].
  - exists []. rewrite app_nil_r. split; [exact Hu|].
    split; [constructor|]. intros n [].
  - now rewrite Hc.
  - now left.
  - now rewrite Hc.
  - exists []. rewrite app_nil_r. split; [exact Hg|]. intros g [].
  - exact Ha.
Qed.

Lemma handleRoundEnd_quiet (r : RoomData) (won : bool) (w : World) :
  exists r',
    storage (fst (handleRoundEnd r won w)) = Some r'
    /\ quiet r r' /\ isActive r' = false /\ settings r' = settings r.
Proof.
  unfold handleRoundEnd. cbn [fst storage].
  destruct (has_clearInterval && _); eexists;
    (split; [reflexivity|]); (split; [|split; reflexivity]);
    repeat (split; [reflexivity|]); cbn; discriminate.
Qed.

Lemma handleCorrectGuess_quiet (r : RoomData) (u : string) (w : World) :
  exists r',
    storage (fst (handleCorrectGuess r u w)) = Some r'
    /\ quiet r r' /\ settings r' = settings r.
Proof.
  unfold handleCorrectGuess.
  destruct (allNonDrawersGuessedCorrectly _).
  - destruct (handleRoundEnd_quiet (r |> set_scores (Some (awarded r u)))
                                   true w) as (r' & Hs & Hq & _ & Hset).
    exists r'. split; [exact Hs|]. split; [exact Hq|exact Hset].
  - cbn [fst storage put]. eexists. split; [reflexivity|].
    split; [|reflexivity]. repeat (split; [reflexivity|]). cbn. auto.
Qed.

(** What [handleGuess] stores follows what it found. *)
Lemma handleGuess_stored
      (u text : string) (e : Env) (w w' : World) (out : list Effect)
      (r : RoomData) :
  storage w = Some r ->
  handleGuess u text e w = Done w' out ->
  exists r',
    storage w' = Some r' /\ evolves r r'
    /\ drawingData r' = drawingData r /\ settings r' = settings r.
Proof.
  intros Hs. unfold handleGuess. rewrite Hs.
  destruct (isActive r) eqn:Ha; cbn [negb];
    [|intros H; inversion H; subst; exists r; split; [exact Hs|];
      split; [apply evolves_refl|split; reflexivity]].
  destruct (Js.str_eq (currentDrawer r) u) eqn:Hd;
    [intros H; inversion H; subst; exists r; split; [exact Hs|];
     split; [apply evolves_refl|split; reflexivity]|].
  destruct (targetWord r) as [target|] eqn:Ht; [|discriminate].
  set (hit := String.eqb _ _).
  set (g := mkGuess u u text (now e) hit).
  assert (Hfair : fair_guess r g).
  { split.
    - now apply str_eq_false.
    - intros t Et. rewrite Ht in Et. inversion Et; subst. reflexivity. }
  assert (Hev : forall r',
             quiet (set_guesses (guesses r ++ [g])%list r) r' ->
             evolves r r').
  { intros r' (Hk & Hu & Hm & Hc & Hg & _ & Hact).
    split; [split; [exact Hk|split; [|split; [|split]]]|split].
    - exists []. rewrite app_nil_r. split; [exact Hu|].
      split; [constructor|]. intros n [].
    - intros x Hx. rewrite Hc. exact Hx.
    - now left.
    - now rewrite Hc.
    - exists [g]. split; [exact Hg|]. intros g' [<-|[]]. now split.
    - exact Hact. }
  destruct hit.
  - destruct (handleCorrectGuess_quiet
                (set_guesses (guesses r ++ [g])%list r) u w)
      as (r' & Hs' & Hq & Hset).
    destruct (handleCorrectGuess _ u w) as [w1 out1]. cbn [fst] in Hs'.
    intros H; inversion H; subst. exists r'. split; [exact Hs'|].
    split; [now apply Hev|]. split; [apply Hq|exact Hset].
  - intros H; inversion H; subst. eexists. split; [reflexivity|].
    split; [|split; reflexivity]. apply Hev.
    repeat (split; [reflexivity|]). cbn. auto.
Qed.

Lemma processAIGuess_stored (r0 r : RoomData) (e : Env) (w : World) :
  storage w = Some r ->
  exists r',
    storage (fst (processAIGuess r0 e w)) = Some r' /\ evolves r r'
    /\ drawingData r' = drawingData r /\ settings r' = settings r.
Proof.
  intros Hs.
  assert (Hsame : exists r', storage w = Some r' /\ evolves r r'
                             /\ drawingData r' = drawingData r
                             /\ settings r' = settings r).
  { exists r. split; [exact Hs|]. split; [apply evolves_refl|].
    split; reflexivity. }
  assert (Hc : forall word,
             exists r',
               storage (fst (caught (handleGuess AI_PLAYER_ID word e w) w))
               = Some r'
               /\ evolves r r' /\ drawingData r' = drawingData r
               /\ settings r' = settings r).
  { intros word.
    destruct (handleGuess AI_PLAYER_ID word e w) as [w1 out1|err] eqn:Hg.
    - exact (handleGuess_stored AI_PLAYER_ID word e w w1 out1 r Hs Hg).
    - exact Hsame. }
  unfold processAIGuess.
  destruct (existsb _ (guesses r0)); [exact Hsame|].
  destruct (Js.lt (9 # 10) _).
  - destruct (targetWord r0); [apply Hc|exact Hsame].
  - destruct (Js.lt (7 # 10) _); [|exact Hsame].
    destruct (Js.random_element _ _); [apply Hc|exact Hsame].
Qed.

Lemma handleDrawingUpdate_follows (u data : string) (e : Env) (w : World) :
  follows w (fst (handleDrawingUpdate u data e w)).
Proof.
  intros r Hs. unfold handleDrawingUpdate. rewrite Hs.
  destruct (isActive r); cbn [negb];
    [|exists r; split; [exact Hs|apply evolves_refl]].
  destruct (Js.str_eq (currentDrawer r) u); cbn [negb];
    [|exists r; split; [exact Hs|apply evolves_refl]].
  set (r1 := set_drawingData data r).
  match goal with
  | |- context [if ?c then _ else _] => destruct c
  end.
  - destruct (processAIGuess_stored r1 r1 e (put r1 w) eq_refl)
      as (r' & Hs' & Hev & _).
    destruct (processAIGuess r1 e (put r1 w)) as [w2 out2].
    exists r'. split; [exact Hs'|exact Hev].
  - exists r1. split; [reflexivity|]. exact (evolves_refl r).
Qed.

Lemma updateGameTimer_follows (w : World) :
  follows w (fst (updateGameTimer w)).
Proof.
  intros r Hs. unfold updateGameTimer. rewrite Hs.
  destruct (isActive r); cbn [negb];
    [|exists r; split; [exact Hs|apply evolves_refl]].
  match goal with
  | |- context [if ?c then _ else _] => destruct c
  end.
  - match goal with
    | |- context [handleRoundEnd ?x false w] =>
        destruct (handleRoundEnd_quiet x false w) as (r' & Hs' & Hq & _)
    end.
    exists r'. split; [exact Hs'|]. now apply quiet_evolves in Hq.
  - eexists. split; [reflexivity|]. exact (evolves_refl r).
Qed.

Lemma handleUpdateSettings_follows (u : string) (p : SettingsPatch)
      (w : World) :
  follows w (fst (handleUpdateSettings u p w)).
Proof.
  intros r Hs. unfold handleUpdateSettings. rewrite Hs.
  destruct (negb _); [exists r; split; [exact Hs|apply evolves_refl]|].
  eexists. split; [reflexivity|]. exact (evolves_refl r).
Qed.

Lemma set_keeps_flags {V : Type} (d : Dict.t V) (k u : string) (v : V) :
  Dict.get d u <> None -> Dict.get (Dict.set d k v) u <> None.
Proof.
  intros H. destruct (String.eqb_spec k u) as [->|Hne].
  - rewrite get_set_same. discriminate.
  - now rewrite get_set_other.
Qed.

Lemma add_user_evolves (n : string) (r : RoomData) :
  evolves r (add_user n r).
Proof.
  unfold add_user. destruct (includes (users r) n) eqn:Hin.
  - split; [split; [reflexivity|split; [|split; [|split]]]|split].
    + exists []. rewrite app_nil_r. split; [reflexivity|].
      split; [constructor|]. intros x [].
    + intros u. cbn. apply set_keeps_flags.
    + now left.
    + cbn. apply keys_set_NoDup.
    + exists []. rewrite app_nil_r. split; [reflexivity|]. intros g [].
    + cbn. auto.
  - split; [split; [reflexivity|split; [|split; [|split]]]|split].
    + exists [n]. split; [reflexivity|].
      split; [repeat constructor; intros []|].
      intros x [<-|[]]. split.
      * intros Hx. apply includes_In in Hx. congruence.
      * cbn. rewrite get_set_same. discriminate.
    + intros u. cbn. apply set_keeps_flags.
    + now left.
    + cbn. apply keys_set_NoDup.
    + exists []. rewrite app_nil_r. split; [reflexivity|]. intros g [].
    + cbn. auto.
Qed.

Lemma handleSession_follows (ws : nat) (room name : string) (w : World) :
  follows w (fst (handleSession ws room name w)).
Proof.
  intros r Hs. unfold handleSession. cbn [storage]. rewrite Hs.
  cbn [fst storage put]. eexists. split; [reflexivity|].
  apply add_user_evolves.
Qed.

Lemma connected_are_users (r : RoomData) (u : string) :
  In u (connected_in_join_order r) -> In u (users r).
Proof.
  unfold connected_in_join_order. intros H. now apply filter_In in H.
Qed.

Lemma onClose_follows (s : SessionInfo) (w : World) :
  follows w (fst (onClose s w)).
Proof.
  intros r Hs. unfold onClose. cbn [storage sessions].
  destruct (existsb _ _); cbn [fst storage];
    [exists r; split; [exact Hs|apply evolves_refl]|].
  rewrite Hs.
  set (r1 := set_connectedUsers _ r).
  assert (H1 : forall m, (m = moderator r \/ In m (users r)) ->
                         evolves r (set_moderator m r1)).
  { intros m Hm.
    split; [split; [reflexivity|split; [|split; [|split]]]|split].
    - exists []. rewrite app_nil_r. split; [reflexivity|].
      split; [constructor|]. intros x [].
    - intros u. cbn. apply set_keeps_flags.
    - exact Hm.
    - cbn. apply keys_set_NoDup.
    - exists []. rewrite app_nil_r. split; [reflexivity|]. intros g [].
    - cbn. auto. }
  destruct (String.eqb _ _).
  - destruct (connected_in_join_order r1) as [|first rest] eqn:Hf;
      cbn [fst storage put]; eexists; (split; [reflexivity|]).
    + apply (H1 (moderator r)). now left.
    + apply (H1 first). right.
      apply (connected_are_users r1). rewrite Hf. now left.
  - cbn [fst storage put]. eexists. split; [reflexivity|].
    apply (H1 (moderator r)). now left.
Qed.

Lemma follows_refl (w : World) : follows w w.
Proof. intros r Hs. exists r. split; [exact Hs|apply evolves_refl]. Qed.

Lemma fetch_follows (rq : Request) (e : Env) (w w' : World)
      (out : list Effect) (res : Response) :
  is_start (Fetch rq) = false ->
  is_initialize (Fetch rq) = false ->
  fetch rq e w = Replied w' out res -> follows w w'.
Proof.
  intros Hst Hin. destruct rq; simpl in Hst, Hin; try discriminate;
    cbn [fetch].
  - destruct room as [rk|], name as [un|];
      try (intros H; inversion H; apply follows_refl).
    destruct (_ && _); [|intros H; inversion H; apply follows_refl].
    pose proof (handleSession_follows server rk un w) as Hf.
    destruct (handleSession server rk un w).
    intros H; inversion H; subst. exact Hf.
  - destruct (found w) as [r|] eqn:Hf;
      intros H; inversion H; [|apply follows_refl].
    apply found_some in Hf. intros r0 Hs.
    rewrite Hf in Hs. inversion Hs; subst.
    eexists. split; [reflexivity|]. apply add_user_evolves.
  - destruct (found w); intros H; inversion H; apply follows_refl.
  - destruct (found w) as [r|] eqn:Hf;
      [|intros H; inversion H; apply follows_refl].
    apply found_some in Hf.
    destruct (negb _); intros H; inversion H; [apply follows_refl|].
    intros r0 Hs. rewrite Hf in Hs. inversion Hs; subst.
    eexists. split; [reflexivity|]. exact (evolves_refl r0).
  - destruct (found w) as [r|] eqn:Hf;
      [|intros H; inversion H; apply follows_refl].
    apply found_some in Hf.
    destruct (negb _); [intros H; inversion H; apply follows_refl|].
    destruct (Js.str_eq _ _); [intros H; inversion H; apply follows_refl|].
    destruct (handleGuess name text e w) as [w1 out1|err] eqn:Hg;
      [|discriminate].
    intros H; inversion H; subst. intros r0 Hs.
    destruct (handleGuess_stored name text e w w' out r0 Hs Hg)
      as (r' & Hs' & Hev & _).
    exists r'. split; [exact Hs'|exact Hev].
  - destruct (found w) as [r|] eqn:Hf;
      [|intros H; inversion H; apply follows_refl].
    destruct (negb (isActive r));
      [intros H; inversion H; apply follows_refl|].
    destruct (negb (Js.str_eq _ _));
      [intros H; inversion H; apply follows_refl|].
    pose proof (handleDrawingUpdate_follows name data e w) as Hst'.
    destruct (handleDrawingUpdate name data e w).
    intros H; inversion H; subst. exact Hst'.
  - destruct (found w); intros H; inversion H; apply follows_refl.
  - intros H; inversion H; apply follows_refl.
Qed.

Lemma onMessage_follows (s : SessionInfo) (m : ClientMsg) (e : Env)
      (w : World) :
  m <> StartGame -> follows w (fst (onMessage s m e w)).
Proof.
  intros Hm. destruct m; cbn [onMessage]; try congruence.
  - apply handleUpdateSettings_follows.
  - destruct (handleGuess (userName s) text e w) as [w1 out1|err] eqn:Hg;
      cbn [fst]; [|apply follows_refl].
    intros r Hs.
    destruct (handleGuess_stored (userName s) text e w w1 out1 r Hs Hg)
      as (r' & Hs' & Hev & _).
    exists r'. split; [exact Hs'|exact Hev].
  - apply handleDrawingUpdate_follows.
  - apply follows_refl.
  - apply follows_refl.
Qed.

(** Every operation but a start and an [/initialize] stores a record
    that follows the one it found. *)
Lemma step_follows (ev : Event) (e : Env) (w : World) :
  is_start ev = false -> is_initialize ev = false ->
  follows w (fst (step ev e w)).
Proof.
  intros Hst Hin. destruct ev; cbn [step].
  - destruct (fetch rq e w) as [w1 out1 res|err] eqn:Hf; cbn [fst].
    + now apply (fetch_follows rq e w w1 out1 res).
    + apply follows_refl.
  - destruct (sessions_get _ _) as [s|]; [|apply follows_refl].
    apply onMessage_follows. intros ->. discriminate.
  - destruct (sessions_get _ _) as [s|]; [|apply follows_refl].
    apply onClose_follows.
  - destruct (existsb _ _); [|apply follows_refl].
    apply updateGameTimer_follows.
  - intros r Hs. cbn. rewrite Hs. exists r. split; [reflexivity|].
    apply evolves_refl.
Qed.

(** A start leaves the record as it was or stores a fresh round over
    the same members, the AI player joining them if it is enabled. *)
Lemma handleStartGame_stored (u : string) (e : Env) (w : World)
      (r : RoomData) :
  storage w = Some r ->
  exists r',
    storage (fst (handleStartGame u e w)) = Some r'
    /\ members_evolve r r'
    /\ (r' = r \/ guesses r' = []).
Proof.
  intros Hs.
  assert (Hsame : exists r', storage w = Some r' /\ members_evolve r r'
                             /\ (r' = r \/ guesses r' = [])).
  { exists r. split; [exact Hs|]. split; [apply evolves_refl|now left]. }
  unfold handleStartGame. rewrite Hs.
  destruct (negb _); [exact Hsame|].
  destruct (Js.lt _ _); [exact Hsame|].
  cbn [fst]. unfold startGameTimer.
  set (r1 := set_scores _ _).
  assert (Hm : forall r2 : RoomData,
             key r2 = key r -> moderator r2 = moderator r ->
             (users r2 = users r /\ connectedUsers r2 = connectedUsers r
              \/ includes (users r) AI_PLAYER_ID = false
                 /\ users r2 = (users r ++ [AI_PLAYER_ID])%list
                 /\ connectedUsers r2
                    = Dict.set (connectedUsers r) AI_PLAYER_ID true) ->
             members_evolve r r2).
  { intros r2 Hk Hmod [[Hu Hc]|(Hni & Hu & Hc)].
    - split; [exact Hk|split; [|split; [|split]]].
      + exists []. rewrite app_nil_r. split; [exact Hu|].
        split; [constructor|]. intros x [].
      + now rewrite Hc.
      + now left.
      + now rewrite Hc.
    - split; [exact Hk|split; [|split; [|split]]].
      + exists [AI_PLAYER_ID]. split; [exact Hu|].
        split; [repeat constructor; intros []|].
        intros x [<-|[]]. split.
        * intros Hx. apply includes_In in Hx. congruence.
        * rewrite Hc, get_set_same. discriminate.
      + intros x. rewrite Hc. apply set_keeps_flags.
      + now left.
      + rewrite Hc. apply keys_set_NoDup. }
  destruct (aiEnabled (settings r1)) as [[|]|];
    try destruct (includes (users r1) AI_PLAYER_ID) eqn:Hinc;
    destruct (negb has_setInterval); cbn [storage put];
    try destruct (isActive _ && Js.lt 0 _);
    cbn [storage];
    eexists; (split; [reflexivity|]); (split; [|right; reflexivity]);
    apply Hm; try reflexivity;
    first [ left; split; reflexivity
          | right; split; [exact Hinc|split; reflexivity] ].
Qed.

Lemma wf_members_evolve (r r' : RoomData) :
  members_evolve r r' -> wf_members r -> wf_members r'.
Proof.
  intros (Hk & (l & Hu & Hl & Hnew) & Hflags & Hmod & Hkeys)
         (Hnd & Hf & Hm & Hkd).
  split; [|split; [|split]].
  - rewrite Hu. apply NoDup_app; auto.
    intros a Ha Hal. destruct (Hnew a Hal) as (Hn & _). now apply Hn.
  - intros u Hin. rewrite Hu in Hin. apply in_app_or in Hin.
    destruct Hin as [Hin|Hin]; [apply Hflags, Hf, Hin|apply Hnew, Hin].
  - intros Hkey. destruct Hmod as [E|Hin]; [|exact Hin].
    rewrite E, Hu. apply in_or_app. left. apply Hm. now rewrite <- Hk.
  - now apply Hkeys.
Qed.

Lemma wf_log_evolves (r r' : RoomData) :
  log_evolves r r' -> wf_log r -> wf_log r'.
Proof.
  intros ((l & Hg & Hnew) & Hact) Hlog Ha' g Hin.
  destruct (Hact Ha') as (Ha & Hd & Ht).
  assert (Hfair : fair_guess r g).
  { rewrite Hg in Hin. apply in_app_or in Hin.
    destruct Hin as [Hin|Hin]; [now apply Hlog|now apply Hnew]. }
  unfold fair_guess. now rewrite Hd, Ht.
Qed.

Lemma step_members (ev : Event) (e : Env) (w : World) (r : RoomData) :
  storage w = Some r ->
  key r <> "" \/ is_initialize ev = false ->
  exists r',
    storage (fst (step ev e w)) = Some r'
    /\ members_evolve r r'
    /\ (is_start ev = false -> log_evolves r r')
    /\ (is_start ev = true -> r' = r \/ guesses r' = []).
Proof.
  intros Hs Hinit.
  assert (Hsame : exists r', storage w = Some r' /\ members_evolve r r'
                             /\ (is_start ev = false -> log_evolves r r')
                             /\ (is_start ev = true ->
                                 r' = r \/ guesses r' = [])).
  { exists r. split; [exact Hs|]. split; [apply evolves_refl|].
    split; [intros _; apply evolves_refl|now left]. }
  destruct (is_start ev) eqn:Hst.
  - destruct ev as [rq|ws m| | |]; try discriminate.
    + destruct rq; try discriminate. cbn [step fetch].
      destruct (found w); [|exact Hsame].
      destruct (negb _); [exact Hsame|].
      destruct (handleStartGame_stored name e w r Hs)
        as (r' & Hs' & Hm & Hg).
      destruct (handleStartGame name e w). cbn [fst] in *.
      exists r'. split; [exact Hs'|]. split; [exact Hm|].
      split; [discriminate|now intros _].
    + destruct m; try discriminate. cbn [step onMessage].
      destruct (sessions_get _ _) as [s|]; [|exact Hsame].
      destruct (handleStartGame_stored (userName s) e w r Hs)
        as (r' & Hs' & Hm & Hg).
      exists r'. split; [exact Hs'|]. split; [exact Hm|].
      split; [discriminate|now intros _].
  - destruct (is_initialize ev) eqn:Hin.
    + destruct Hinit as [Hk|]; [|discriminate].
      destruct ev as [rq| | | |]; try discriminate.
      destruct rq; try discriminate. cbn [step fetch].
      rewrite (found_stored w r Hs Hk). exact Hsame.
    + destruct (step_follows ev e w Hst Hin r Hs) as (r' & Hs' & Hm & Hl).
      exists r'. split; [exact Hs'|]. split; [exact Hm|].
      split; [now intros _|discriminate].
Qed.

(** After the constructor the slot always holds a record whose member
    lists and guess log are well formed. *)
Lemma reachable_wf (w : World) :
  reachable w ->
  exists r, storage w = Some r /\ wf_members r /\ wf_log r.
Proof.
  induction 1 as [|w ev e _ (r & Hs & Hm & Hl)].
  - eexists. split; [reflexivity|]. split; [split; [|split; [|split]]|].
    + constructor.
    + intros u [].
    + intros Hk. now contradiction Hk.
    + constructor.
    + discriminate.
  - destruct (is_initialize ev) eqn:Hin.
    + destruct ev as [rq| | | |]; try discriminate.
      destruct rq; try discriminate. cbn [step fetch].
      destruct (found w); cbn [fst]; [exists r; auto|].
      eexists. split; [reflexivity|]. split; [split; [|split; [|split]]|].
      * repeat constructor. intros [].
      * intros u [<-|[]]. cbn. rewrite String.eqb_refl. discriminate.
      * intros _. now left.
      * repeat constructor. intros [].
      * discriminate.
    + destruct (step_members ev e w r Hs (or_intror Hin))
        as (r' & Hs' & Hm' & Hlog & Hstart).
      exists r'. split; [exact Hs'|].
      split; [now apply (wf_members_evolve r)|].
      destruct (is_start ev).
      * destruct (Hstart eq_refl) as [->|Hg]; [exact Hl|].
        intros _ g Hg'. rewrite Hg in Hg'. destruct Hg'.
      * apply (wf_log_evolves r); [now apply Hlog|exact Hl].
Qed.

(** *** Invariants of the stored record *)

(** X1. In every reachable state the list of users has no duplicate:
    joining, connecting and starting a round with the AI player add a
    name only when it is absent. *)
Theorem users_are_unique (w : World) (r : RoomData) :
  reachable w -> storage w = Some r -> NoDup (users r).
Proof.
  intros Hr Hs. destruct (reachable_wf w Hr) as (r0 & Hs0 & (H & _) & _).
  rewrite Hs in Hs0. now inversion Hs0.
Qed.


(** X3. In every reachable state of an initialised room (its key is not
    empty) the moderator is one of the users. *)
Theorem moderator_is_a_user (w : World) (r : RoomData) :
  reachable w -> storage w = Some r -> key r <> "" ->
  In (moderator r) (users r).
Proof.
  intros Hr Hs Hk.
  destruct (reachable_wf w Hr) as (r0 & Hs0 & (_ & _ & H & _) & _).
  rewrite Hs in Hs0. inversion Hs0; subst r0. now apply H.
Qed.

(** X4. In every reachable state with an active round no recorded
    guess is by the current drawer. *)
Theorem drawer_never_in_guess_log (w : World) (r : RoomData) (g : Guess) :
  reachable w -> storage w = Some r -> isActive r = true ->
  In g (guesses r) -> currentDrawer r <> Some (playerId g).
Proof.
  intros Hr Hs Ha Hg. destruct (reachable_wf w Hr) as (r0 & Hs0 & _ & H).
  rewrite Hs in Hs0. inversion Hs0; subst r0. now apply (H Ha g Hg).
Qed.

(** X5. In every reachable state with an active round the [correct]
    flag of each recorded guess tells whether its trimmed text equals
    the target word of the round up to letter case. *)
Theorem correct_flags_match_word
        (w : World) (r : RoomData) (g : Guess) (t : string) :
  reachable w -> storage w = Some r -> isActive r = true ->
  targetWord r = Some t -> In g (guesses r) ->
  (correct g = true
   <-> Js.toLowerCase (Js.trim (guess g)) = Js.toLowerCase t).
Proof.
  intros Hr Hs Ha Ht Hg. destruct (reachable_wf w Hr) as (r0 & Hs0 & _ & H).
  rewrite Hs in Hs0. inversion Hs0; subst r0.
  destruct (H Ha g Hg) as (_ & Hc). rewrite (Hc t Ht).
  apply String.eqb_eq.
Qed.

(** X6. Once a room is initialised no operation changes its key,
    removes or reorders a user (new users are appended) or drops a
    connection flag; in particular a second [/initialize] is refused. *)
Theorem initialised_room_keeps_members
        (ev : Event) (e : Env) (w : World) (r : RoomData) :
  storage w = Some r -> key r <> "" ->
  exists r' joined,
    storage (fst (step ev e w)) = Some r'
    /\ key r' = key r
    /\ users r' = (users r ++ joined)%list
    /\ forall u c, Dict.get (connectedUsers r) u = Some c ->
                   exists c', Dict.get (connectedUsers r') u = Some c'.
Proof.
  intros Hs Hk.
  destruct (step_members ev e w r Hs (or_introl Hk))
    as (r' & Hs' & (Hk' & (l & Hu & _) & Hf & _) & _).
  exists r', l. split; [exact Hs'|]. split; [exact Hk'|].
  split; [exact Hu|]. intros u c Hc.
  assert (H : Dict.get (connectedUsers r') u <> None)
    by (apply Hf; congruence).
  destruct (Dict.get (connectedUsers r') u) as [c'|]; [now exists c'|].
  now contradiction H.
Qed.

(** X7. An operation that is neither a start nor an [/initialize] only
    appends to the guess log: the guesses it found stay, in order, at
    the front. *)
Theorem guess_log_is_append_only
        (ev : Event) (e : Env) (w : World) (r : RoomData) :
  storage w = Some r ->
  is_start ev = false -> is_initialize ev = false ->
  exists r' added,
    storage (fst (step ev e w)) = Some r'
    /\ guesses r' = (guesses r ++ added)%list.
Proof.
  intros Hs Hst Hin.
  destruct (step_follows ev e w Hst Hin r Hs)
    as (r' & Hs' & _ & (l & Hg & _) & _).
  now exists r', l.
Qed.

(** *** The timer *)

(** X8. A tick in an active round with more than one second left
    stores the time less one, leaves everything else as it was and
    broadcasts [timeUpdate] with the new time.  With one second or less
    left it ends the round as lost: [roundEnd] without success goes out
    with the word, the phase is the lobby, the word and the drawer are
    cleared, the time is back at the full duration, and the scores and
    the guesses are kept. *)
Theorem tick_in_active_round (w : World) (r : RoomData) :
  storage w = Some r ->
  isActive r = true ->
  (1 < timeRemaining r ->
   updateGameTimer w
   = (put (set_timeRemaining (timeRemaining r - 1) r) w,
      [Broadcast (MTimeUpdate (timeRemaining r - 1))]))
  /\ (timeRemaining r <= 1 ->
      exists r' st,
        storage (fst (updateGameTimer w)) = Some r'
        /\ snd (updateGameTimer w)
           = [Broadcast (MRoundEnd false (targetWord r) (scores r) st)]
        /\ isActive r' = false /\ isLobby r' = true
        /\ targetWord r' = Some "" /\ currentDrawer r' = Some ""
        /\ timeRemaining r' = gameDuration (settings r)
        /\ hasWon r' = false
        /\ scores r' = scores r /\ guesses r' = guesses r).
Proof.
  intros Hs Ha. unfold updateGameTimer. rewrite Hs, Ha. cbn [negb].
  split.
  - intros Ht.
    assert (E1 : Qle_bool 0 (timeRemaining r - 1) = true)
      by (apply Qle_bool_iff; lra).
    assert (E2 : Qle_bool (timeRemaining r - 1) 0 = false).
    { apply not_true_is_false. intros H. apply Qle_bool_iff in H. lra. }
    unfold Js.le, Js.max. cbn [timeRemaining set_timeRemaining].
    now rewrite E1, E2.
  - intros Ht.
    assert (E : Js.le (Js.max 0 (timeRemaining r - 1)) 0 = true).
    { unfold Js.le, Js.max.
      destruct (Qle_bool 0 (timeRemaining r - 1)); apply Qle_bool_iff; lra. }
    cbn [timeRemaining set_timeRemaining]. rewrite E.
    unfold handleRoundEnd. cbn [fst snd storage].
    destruct (has_clearInterval && _); do 2 eexists;
      repeat (split; [reflexivity|]); reflexivity.
Qed.

(** X9. Ending a round clears the interval the record names (when
    [clearInterval] exists and an interval is named): the stored
    [timerInterval] becomes 0, that interval is no longer armed, no
    other interval is touched, and a firing of the cleared interval
    does nothing. *)
Theorem round_end_disarms_interval
        (r : RoomData) (won : bool) (w : World) (e : Env) :
  has_clearInterval = true ->
  timerInterval r <> 0%Z ->
  let w' := fst (handleRoundEnd r won w) in
  (exists r', storage w' = Some r' /\ timerInterval r' = 0%Z)
  /\ ~ In (timerInterval r) (intervals w')
  /\ (forall id, id <> timerInterval r ->
                 (In id (intervals w') <-> In id (intervals w)))
  /\ step (Tick (timerInterval r)) e w' = (w', []).
Proof.
  intros Hc Hn w'.
  assert (E : has_clearInterval && negb (timerInterval r =? 0)%Z = true).
  { rewrite Hc. apply Z.eqb_neq in Hn. now rewrite Hn. }
  assert (Hiv : intervals w'
                = remove Z.eq_dec (timerInterval r) (intervals w)).
  { unfold w', handleRoundEnd. cbn [fst intervals timerInterval
      set_statusMessage set_endTime set_currentDrawer set_hasWon
      set_timeRemaining set_targetWord set_isLobby set_isActive].
    now rewrite E. }
  assert (Hnot : ~ In (timerInterval r) (intervals w'))
    by (rewrite Hiv; apply remove_In).
  split; [|split; [exact Hnot|split]].
  - unfold w', handleRoundEnd. cbn [fst storage timerInterval
      set_statusMessage set_endTime set_currentDrawer set_hasWon
      set_timeRemaining set_targetWord set_isLobby set_isActive].
    rewrite E. eexists. split; reflexivity.
  - intros id Hid. rewrite Hiv. split.
    + intros H. now apply in_remove in H.
    + intros H. now apply in_in_remove.
  - cbn [step].
    destruct (existsb (Z.eqb (timerInterval r)) (intervals w')) eqn:Hex;
      [|reflexivity].
    apply existsb_exists in Hex. destruct Hex as (id & Hin & Heq).
    apply Z.eqb_eq in Heq. subst id. now contradiction Hnot.
Qed.

(** X10. A start never clears an interval.  When the moderator starts a
    round while the interval of an earlier round is armed, that
    interval stays armed beside the new one, and it is still armed
    after the new round has ended: only the interval the record names
    is ever cleared. *)
Theorem restart_leaves_old_interval_armed
        (u : string) (e : Env) (w : World) (r : RoomData) :
  storage w = Some r ->
  moderator r = u ->
  minPlayers (settings r) <= Js.len (connected_names r) ->
  has_setInterval = true ->
  0 < gameDuration (settings r) ->
  In (timerInterval r) (intervals w) ->
  timerInterval r <> intervalId e ->
  let w1 := fst (handleStartGame u e w) in
  In (timerInterval r) (intervals w1)
  /\ In (intervalId e) (intervals w1)
  /\ exists r1,
       storage w1 = Some r1 /\ timerInterval r1 = intervalId e
       /\ forall won,
            In (timerInterval r)
               (intervals (fst (handleRoundEnd r1 won w1))).
Proof.
  intros Hs Hm Hn Hsi Hpos Harmed Hne w1.
  assert (Hw1 : exists r1,
             storage w1 = Some r1 /\ timerInterval r1 = intervalId e
             /\ intervals w1 = intervalId e :: intervals w).
  { unfold w1, handleStartGame. rewrite Hs.
    apply String.eqb_eq in Hm. rewrite Hm. cbn [negb].
    apply lt_false in Hn. rewrite Hn. cbn [fst].
    unfold startGameTimer. rewrite Hsi. cbn [negb storage put].
    apply lt_spec in Hpos.
    destruct (aiEnabled _) as [[|]|]; try destruct (includes _ _);
      cbn [isActive timeRemaining set_scores set_users set_connectedUsers
           set_isActive set_isLobby set_targetWord set_timeRemaining
           set_guesses set_hasWon set_currentDrawer set_endTime
           set_drawingData andb];
      rewrite Hpos; eexists; repeat split. }
  destruct Hw1 as (r1 & Hs1 & Ht1 & Hiv).
  split; [rewrite Hiv; now right|]. split; [rewrite Hiv; now left|].
  exists r1. split; [exact Hs1|]. split; [exact Ht1|].
  intros won. unfold handleRoundEnd. cbn [fst intervals timerInterval
      set_statusMessage set_endTime set_currentDrawer set_hasWon
      set_timeRemaining set_targetWord set_isLobby set_isActive].
  destruct (has_clearInterval && _).
  - apply in_in_remove; [congruence|]. rewrite Hiv. now right.
  - rewrite Hiv. now right.
Qed.

(** X11. Only a start makes a round active: from a state without an
    active round, no other operation (request, socket message, closing,
    tick or eviction) stores an active record. *)
Theorem only_a_start_activates (ev : Event) (e : Env) (w : World) :
  is_start ev = false ->
  active w = false ->
  active (fst (step ev e w)) = false.
Proof.
  intros Hst Ha. destruct (step_steady ev e w Hst) as ((H & _) & _).
  now apply H.
Qed.

(** *** Guesses and scores, continued *)

(** X12. A guess that misses the word only adds one record, flagged
    incorrect, and broadcasts [newGuess]: no score changes, the round
    goes on and nothing else in the record moves. *)
Theorem wrong_guess_only_logs
        (u text : string) (e : Env) (w : World) (r : RoomData)
        (target : string) :
  storage w = Some r ->
  isActive r = true ->
  currentDrawer r <> Some u ->
  targetWord r = Some target ->
  Js.toLowerCase (Js.trim text) <> Js.toLowerCase target ->
  handleGuess u text e w
  = Done (put (set_guesses
                 (guesses r ++ [mkGuess u u text (now e) false])%list r) w)
         [Broadcast (MNewGuess u text (now e))].
Proof.
  intros Hs Ha Hd Ht Hmiss.
  rewrite (handleGuess_active u text e w r target Hs Ha Hd Ht).
  apply String.eqb_neq in Hmiss. now rewrite Hmiss.
Qed.

(** X13. A correct guess changes the score of the guesser and of the
    drawer only: every other player keeps the score entry they had. *)
Theorem correct_guess_pays_only_two
        (u text : string) (e : Env) (w : World) (r : RoomData)
        (target : string) :
  storage w = Some r ->
  isActive r = true ->
  currentDrawer r <> Some u ->
  targetWord r = Some target ->
  Js.toLowerCase (Js.trim text) = Js.toLowerCase target ->
  exists w' out r',
    handleGuess u text e w = Done w' out
    /\ storage w' = Some r'
    /\ forall k, k <> u -> currentDrawer r <> Some k ->
                 Dict.get (scores_or_empty r') k
                 = Dict.get (scores_or_empty r) k.
Proof.
  intros Hs Ha Hd Ht Hhit.
  destruct (handleGuess_correct u text e w r target Hs Ha Hd Ht Hhit)
    as (w' & out & r' & Hg & Hs' & _ & _ & _ & Hsc & _).
  exists w', out, r'. split; [exact Hg|]. split; [exact Hs'|].
  intros k Hk Hkd. unfold scores_or_empty at 1. rewrite Hsc.
  unfold awarded. cbn [currentDrawer set_guesses].
  change (scores_or_empty (set_guesses _ r)) with (scores_or_empty r).
  destruct (currentDrawer r) as [d|].
  - destruct (_ && _).
    + rewrite credit_other by congruence. now apply credit_other.
    + now apply credit_other.
  - now apply credit_other.
Qed.

(** *** Requests *)

(** X14. On a room that is not initialised (no record, or a record with
    an empty key) the routes [/join], [/settings] (GET and PUT),
    [/start-game], [/submit-guess], [/update-drawing] and [/game-state]
    all answer 404 "Room not found", change nothing and send nothing. *)
Theorem routes_answer_not_found (rq : Request) (e : Env) (w : World) :
  found w = None ->
  room_routes rq = true ->
  fetch rq e w
  = Replied w [] (mkResponse 404 (ErrorBody "Room not found")).
Proof.
  intros Hf Hrq. destruct rq; try discriminate; cbn [fetch];
    now rewrite Hf.
Qed.

(** X15. The routes refuse without touching the state: [/start-game]
    answers 403 to anyone but the moderator; [/submit-guess] answers
    400 when no round is active and 400 to the drawer;
    [/update-drawing] answers 400 when no round is active and 403 to
    anyone but the drawer. *)
Theorem routes_refuse_and_keep_state
        (n x : string) (e : Env) (w : World) (r : RoomData) :
  found w = Some r ->
  (moderator r <> n ->
   fetch (PostStartGame n) e w
   = Replied w []
       (mkResponse 403 (ErrorBody "Only the moderator can start the game")))
  /\ (isActive r = false ->
      fetch (PostSubmitGuess n x) e w
      = Replied w [] (mkResponse 400 (ErrorBody "Game is not active")))
  /\ (isActive r = true -> currentDrawer r = Some n ->
      fetch (PostSubmitGuess n x) e w
      = Replied w []
          (mkResponse 400 (ErrorBody "The drawer cannot submit guesses")))
  /\ (isActive r = false ->
      fetch (PostUpdateDrawing n x) e w
      = Replied w [] (mkResponse 400 (ErrorBody "Game is not active")))
  /\ (isActive r = true -> currentDrawer r <> Some n ->
      fetch (PostUpdateDrawing n x) e w
      = Replied w []
          (mkResponse 403
             (ErrorBody "Only the current drawer can update the drawing"))).
Proof.
  intros Hf. cbn [fetch]. rewrite Hf. repeat split.
  - intros Hm. apply String.eqb_neq in Hm. now rewrite Hm.
  - intros Ha. now rewrite Ha.
  - intros Ha Hd. apply str_eq_true in Hd. now rewrite Ha, Hd.
  - intros Ha. now rewrite Ha.
  - intros Ha Hd. apply str_eq_false in Hd. now rewrite Ha, Hd.
Qed.

(** X16. [/start-game] called by the moderator answers 200 with success
    also when fewer users are connected than [minPlayers]: nothing is
    started, nothing is stored and nothing is sent. *)
Theorem start_route_reports_success_without_round
        (n : string) (e : Env) (w : World) (r : RoomData) :
  found w = Some r ->
  moderator r = n ->
  Js.len (connected_names r) < minPlayers (settings r) ->
  fetch (PostStartGame n) e w = Replied w [] (mkResponse 200 SuccessBody).
Proof.
  intros Hf Hm Hn. cbn [fetch]. rewrite Hf.
  apply String.eqb_eq in Hm. rewrite Hm. cbn [negb].
  unfold handleStartGame. rewrite (found_some w r Hf), Hm. cbn [negb].
  apply lt_spec in Hn. now rewrite Hn.
Qed.





(** X18. Updating the settings twice with the same patch stores what
    one update stores, and an update with an empty patch leaves the
    settings as they were. *)
Theorem settings_update_is_idempotent
        (u : string) (p : SettingsPatch) (w : World) (r : RoomData) :
  storage w = Some r ->
  moderator r = u ->
  let w1 := fst (handleUpdateSettings u p w) in
  storage (fst (handleUpdateSettings u p w1)) = storage w1
  /\ storage (fst (handleUpdateSettings u no_patch w)) = Some r.
Proof.
  intros Hs Hm. apply String.eqb_eq in Hm.
  assert (Hidem : forall s, merge_settings (merge_settings s p) p
                            = merge_settings s p).
  { intros s. destruct p as [a b c d f g h].
    destruct a, b, c, d, f, g, h; reflexivity. }
  assert (Hnone : merge_settings (settings r) no_patch = settings r)
    by (destruct (settings r); reflexivity).
  split.
  - unfold handleUpdateSettings. rewrite Hs, Hm.
    cbn [negb fst storage put moderator set_settings]. rewrite Hm.
    cbn [negb fst storage put settings set_settings]. now rewrite Hidem.
  - unfold handleUpdateSettings. rewrite Hs, Hm.
    cbn [negb fst storage put]. rewrite Hnone. now destruct r.
Qed.

(** *** Drawing *)

Lemma handleGuess_keeps (u text : string) (e : Env) (w w' : World)
      (out : list Effect) (r : RoomData) :
  storage w = Some r ->
  handleGuess u text e w = Done w' out ->
  exists r', storage w' = Some r' /\ drawingData r' = drawingData r.
Proof.
  intros Hs Hg.
  destruct (handleGuess_stored u text e w w' out r Hs Hg)
    as (r' & Hs' & _ & Hd & _).
  now exists r'.
Qed.

(** X19. [handleDrawingUpdate] does nothing unless a round is active
    and the caller is the drawer.  For the drawer it stores the
    drawing, which is still stored when an AI guess follows, and the
    last message sent is [drawingUpdate] with that drawing; when the AI
    player is not enabled or not connected, storing the drawing and
    that one broadcast is all that happens. *)
Theorem drawing_update_stores_and_broadcasts
        (u data : string) (e : Env) (w : World) (r : RoomData) :
  storage w = Some r ->
  ((isActive r = false \/ currentDrawer r <> Some u) ->
     handleDrawingUpdate u data e w = (w, []))
  /\ (isActive r = true -> currentDrawer r = Some u ->
      (exists r' before,
         storage (fst (handleDrawingUpdate u data e w)) = Some r'
         /\ drawingData r' = data
         /\ snd (handleDrawingUpdate u data e w)
            = (before ++ [Broadcast (MDrawingUpdate data)])%list)
      /\ ((aiEnabled (settings r) <> Some true
           \/ Dict.get (connectedUsers r) AI_PLAYER_ID <> Some true) ->
          handleDrawingUpdate u data e w
          = (put (set_drawingData data r) w,
             [Broadcast (MDrawingUpdate data)]))).
Proof.
  intros Hs. split.
  - intros [Ha|Hd]; unfold handleDrawingUpdate; rewrite Hs.
    + now rewrite Ha.
    + apply str_eq_false in Hd. rewrite Hd. now destruct (isActive r).
  - intros Ha Hd. apply str_eq_true in Hd.
    unfold handleDrawingUpdate. rewrite Hs, Ha, Hd. cbn [negb].
    set (r1 := set_drawingData data r).
    split.
    + match goal with
      | |- context [if ?c then _ else _] => destruct c
      end.
      * destruct (processAIGuess_stored r1 r1 e (put r1 w) eq_refl)
          as (r' & Hs' & _ & Hdd & _).
        destruct (processAIGuess r1 e (put r1 w)) as [w2 out2].
        exists r', out2. cbn [fst snd] in *.
        split; [exact Hs'|]. split; [exact Hdd|reflexivity].
      * exists r1, []. repeat split.
    + intros Hoff. unfold r1.
      cbn [settings connectedUsers set_drawingData].
      destruct (aiEnabled (settings r)) as [[|]|];
        try reflexivity.
      destruct (Dict.get (connectedUsers r) AI_PLAYER_ID) as [[|]|];
        try reflexivity.
      destruct Hoff as [H|H]; now contradiction H.
Qed.

(** *** The AI player *)




(** *** Sessions *)






(** X24. Unlike [gameStarted], the broadcasts that carry the room
    record carry it whole: while a round is active, a connecting
    socket, a [/join], a settings update by the moderator and the
    closing of a user's last socket each broadcast the record with the
    target word of the round in it, and the connecting socket is sent
    it as [initialize]. *)
Theorem room_broadcasts_carry_the_word
        (ws : nat) (room name : string) (p : SettingsPatch)
        (s : SessionInfo) (e : Env) (w : World) (r : RoomData)
        (t : string) :
  found w = Some r ->
  isActive r = true ->
  targetWord r = Some t ->
  (exists r1,
     snd (handleSession ws room name w)
     = [Broadcast (MUserConnectionStatus name true r1);
        Send ws (MInitialize (Some r1))]
     /\ targetWord r1 = Some t)
  /\ (exists w1 r1 res,
        fetch (PostJoin name) e w
        = Replied w1 [Broadcast (MUserJoined name r1)] res
        /\ targetWord r1 = Some t)
  /\ (moderator r = name ->
      exists r1,
        snd (handleUpdateSettings name p w)
        = [Broadcast (MSettingsUpdated (settings r1) r1)]
        /\ targetWord r1 = Some t)
  /\ ((forall s', In s' (sessions w) -> webSocket s' <> webSocket s ->
                  userName s' <> userName s) ->
      exists x r1,
        In x (snd (onClose s w))
        /\ carried_room x = Some r1 /\ targetWord r1 = Some t).
Proof.
  intros Hf Ha Ht. pose proof (found_some w r Hf) as Hs.
  assert (Hadd : forall n, targetWord (add_user n r) = Some t).
  { intros n. unfold add_user. now destruct (includes (users r) n). }
  split; [|split; [|split]].
  - unfold handleSession. cbn [storage]. rewrite Hs. cbn [snd app].
    eexists. split; [reflexivity|apply Hadd].
  - cbn [fetch]. rewrite Hf. do 3 eexists. split; [reflexivity|apply Hadd].
  - intros Hm. apply String.eqb_eq in Hm.
    unfold handleUpdateSettings. rewrite Hs, Hm. cbn [negb snd].
    eexists. split; [reflexivity|exact Ht].
  - intros Hlast. unfold onClose. cbn [storage sessions].
    assert (E : existsb (fun x => String.eqb (userName x) (userName s))
                        (sessions_delete (sessions w) (webSocket s))
                = false).
    { apply not_true_is_false. intros H. apply existsb_exists in H.
      destruct H as (s' & Hin & Heq). apply String.eqb_eq in Heq.
      apply filter_In in Hin. destruct Hin as (Hin & Hws).
      apply negb_true_iff, Nat.eqb_neq in Hws.
      now apply (Hlast s' Hin Hws). }
    rewrite E, Hs.
    destruct (String.eqb _ _);
      [destruct (connected_in_join_order _)|];
      cbn [snd]; do 2 eexists;
      (split; [left; reflexivity|]); (split; [reflexivity|exact Ht]).
Qed.

(** *** Random picks *)

Lemma random_index_in_bounds (k : N) (n : Z) :
  (0 < n)%Z ->
  (0 <= Qfloor (Js.random k * inject_Z n) < n)%Z.
Proof.
  intros Hn. unfold Js.random, Qmult, inject_Z, Qfloor. cbn [Qnum Qden].
  assert (Ha : (0 <= Z.of_N (k mod 2 ^ 53) < Z.pos (2 ^ 53 * 1))%Z).
  { split; [apply N2Z.is_nonneg|].
    change (Z.pos (2 ^ 53 * 1)) with (Z.of_N (2 ^ 53)).
    apply N2Z.inj_lt. now apply N.mod_lt. }
  revert Ha. generalize (Z.of_N (k mod 2 ^ 53)) (Z.pos (2 ^ 53 * 1)).
  intros a b Ha. split.
  - apply Z.div_pos; [apply Z.mul_nonneg_nonneg|]; lia.
  - apply Z.div_lt_upper_bound; [lia|].
    apply Z.mul_lt_mono_pos_r; lia.
Qed.

Lemma random_element_some {A : Type} (l : list A) (k : N) :
  l <> [] -> exists x, Js.random_element l k = Some x /\ In x l.
Proof.
  intros Hl. unfold Js.random_element.
  assert (Hn : (0 < Z.of_nat (List.length l))%Z)
    by (destruct l; [congruence|simpl; lia]).
  pose proof (random_index_in_bounds k _ Hn) as Hq.
  destruct (nth_error l _) as [x|] eqn:E.
  - exists x. split; [reflexivity|]. now apply nth_error_In in E.
  - apply nth_error_None in E. lia.
Qed.

Lemma insert_index_In {V : Type} (n : N) (e : string * V)
      (l : list (N * (string * V))) (y : N * (string * V)) :
  In y (Dict.insert_index n e l) <-> y = (n, e) \/ In y l.
Proof.
  induction l as [|[m e'] l IH]; simpl.
  - split; [intros [<-|[]]; now left|intros [->|[]]; now left].
  - destruct (n <? m)%N; simpl.
    + split; [intros [<-|H]; tauto|intros [->|H]; tauto].
    + rewrite IH. split; [tauto|]. intros [->|[H|H]]; tauto.
Qed.

Lemma index_entries_In {V : Type} (d : Dict.t V) (n : N)
      (x : string * V) :
  In (n, x) (Dict.index_entries d)
  <-> In x d /\ Dict.array_index (fst x) = Some n.
Proof.
  induction d as [|e d IH]; simpl; [tauto|].
  destruct (Dict.array_index (fst e)) as [m|] eqn:Em.
  - rewrite insert_index_In, IH. split.
    + intros [E|(H & Hn)]; [inversion E; subst; auto|auto].
    + intros ([<-|H] & Hn); [left; congruence|right; auto].
  - rewrite IH. split; [tauto|].
    intros ([<-|H] & Hn); [congruence|auto].
Qed.

(** [Object.entries] lists the properties of the object, each once. *)
Lemma entries_In {V : Type} (d : Dict.t V) (x : string * V) :
  In x (Dict.entries d) <-> In x d.
Proof.
  unfold Dict.entries. rewrite in_app_iff, in_map_iff, filter_In. split.
  - intros [([n y] & <- & H)|(H & _)]; [|exact H].
    now apply index_entries_In in H.
  - intros H. destruct (Dict.array_index (fst x)) as [n|] eqn:E.
    + left. exists (n, x). split; [reflexivity|].
      now apply index_entries_In.
    + right. split; [exact H|]. unfold Dict.is_index. now rewrite E.
Qed.

Lemma get_In {V : Type} (d : Dict.t V) (k : string) (v : V) :
  NoDup (keys d) -> (In (k, v) d <-> Dict.get d k = Some v).
Proof.
  induction d as [|[k' v'] d IH]; simpl; intros Hnd.
  - split; [intros []|discriminate].
  - inversion Hnd as [|? ? Hn Hd]; subst.
    destruct (String.eqb_spec k' k) as [->|Hne].
    + split.
      * intros [E|H]; [congruence|].
        exfalso. apply Hn. apply in_map_iff. now exists (k, v).
      * intros E. left. congruence.
    + rewrite <- (IH Hd). split; [|tauto].
      intros [E|H]; [congruence|exact H].
Qed.

Lemma connected_names_spec (r : RoomData) (u : string) :
  NoDup (keys (connectedUsers r)) ->
  (In u (connected_names r) <-> Dict.get (connectedUsers r) u = Some true).
Proof.
  intros Hnd. unfold connected_names.
  rewrite <- (get_In _ _ _ Hnd), in_map_iff. split.
  - intros ([k c] & <- & H). apply filter_In in H. destruct H as (H & Hc).
    apply (proj1 (entries_In _ _)) in H. simpl in Hc. simpl. now subst c.
  - intros H. exists (u, true). split; [reflexivity|].
    apply filter_In. split; [now apply entries_In|reflexivity].
Qed.

(** X25. In a reachable state, when the moderator starts a round with a
    positive [minPlayers] met and a word list that is not empty, the
    round always has a word and a drawer: the word is one of the list
    and the drawer is a name whose connection flag was set. *)
Theorem start_picks_word_and_connected_drawer
        (u : string) (e : Env) (w : World) (r : RoomData) :
  reachable w ->
  storage w = Some r ->
  moderator r = u ->
  0 < minPlayers (settings r) ->
  minPlayers (settings r) <= Js.len (connected_names r) ->
  GAME_WORDS <> [] ->
  exists r' word drawer,
    storage (fst (handleStartGame u e w)) = Some r'
    /\ targetWord r' = Some word /\ In word GAME_WORDS
    /\ currentDrawer r' = Some drawer
    /\ Dict.get (connectedUsers r) drawer = Some true.
Proof.
  intros Hr Hs Hm Hpos Hn Hw.
  destruct (reachable_wf w Hr) as (r0 & Hs0 & (_ & _ & _ & Hk) & _).
  rewrite Hs in Hs0. inversion Hs0; subst r0.
  assert (Hc : connected_names r <> []).
  { intros E. rewrite E in Hn. unfold Js.len, inject_Z in Hn.
    simpl in Hn. lra. }
  destruct (random_element_some GAME_WORDS (rnd1 e) Hw)
    as (word & Ew & Hword).
  destruct (random_element_some (connected_names r) (rnd2 e) Hc)
    as (drawer & Ed & Hdrawer).
  assert (Hst : exists r',
             storage (fst (handleStartGame u e w)) = Some r'
             /\ targetWord r' = Some word
             /\ currentDrawer r' = Some drawer).
  { unfold handleStartGame. rewrite Hs.
    apply String.eqb_eq in Hm. rewrite Hm. cbn [negb].
    apply lt_false in Hn. rewrite Hn. cbn [fst].
    rewrite Ew, Ed. unfold startGameTimer.
    destruct (negb has_setInterval); cbn [storage put];
      destruct (aiEnabled _) as [[|]|]; try destruct (includes _ _);
      cbn [isActive timeRemaining set_scores set_users set_connectedUsers
           set_isActive set_isLobby set_targetWord set_timeRemaining
           set_guesses set_hasWon set_currentDrawer set_endTime
           set_drawingData andb];
      try destruct (Js.lt 0 _); eexists; repeat split. }
  destruct Hst as (r' & Hs' & Ht & Hd).
  exists r', word, drawer. split; [exact Hs'|]. split; [exact Ht|].
  split; [exact Hword|]. split; [exact Hd|].
  now apply connected_names_spec.
Qed.

Lemma reachable_run (evs : list (Event * Env)) (w : World) :
  reachable w -> reachable (fst (run evs w)).
Proof.
  revert w. induction evs as [|[ev e] evs IH]; intros w Hw; [exact Hw|].
  cbn [run]. pose proof (reachable_step w ev e Hw) as H1.
  destruct (step ev e w) as [w1 out1]. cbn [fst] in H1.
  specialize (IH w1 H1). now destruct (run evs w1) as [w2 out2].
Qed.

End Room.

(** ** Properties of the drawing history *)

Section CanvasProperties.

Variable Pixels : Type.
Variable resample : Pixels -> Z * Z -> Z * Z -> Pixels.
Variable cleared : Z * Z -> Pixels.

Lemma slice_to_length {A : Type} (l : list A) (e : Z) :
  (-1 <= e - 1 < Z.of_nat (List.length l))%Z ->
  List.length (Canvas.slice_to l e) = Z.to_nat e.
Proof.
  intros H. unfold Canvas.slice_to.
  destruct (e <? 0)%Z eqn:E; [apply Z.ltb_lt in E; lia|].
  rewrite length_firstn. lia.
Qed.

Lemma remember_in_bounds (img : Canvas.ImageData Pixels)
      (s : Canvas.State Pixels) :
  Canvas.in_bounds (Canvas.remember img s)
  /\ Canvas.historyIndex (Canvas.remember img s)
     = (Z.of_nat (List.length (Canvas.history (Canvas.remember img s))) - 1)%Z
  /\ Canvas.history (Canvas.remember img s) <> [].
Proof.
  unfold Canvas.in_bounds, Canvas.remember.
  cbn [Canvas.history Canvas.historyIndex].
  set (pushed := (_ ++ [img])%list).
  assert (Hp : (1 <= List.length pushed)%nat)
    by (unfold pushed; rewrite length_app; simpl; lia).
  assert (Hl : List.length
                 (skipn (List.length pushed - Canvas.MAX_HISTORY_SIZE) pushed)
               = Nat.min (List.length pushed) Canvas.MAX_HISTORY_SIZE).
  { rewrite length_skipn. unfold Canvas.MAX_HISTORY_SIZE. lia. }
  rewrite Hl. unfold Canvas.MAX_HISTORY_SIZE in *.
  repeat split; try lia.
  intros E. apply (f_equal (@List.length _)) in E. rewrite Hl in E.
  simpl in E. lia.
Qed.

Lemma saveToHistory_cases (s : Canvas.State Pixels) :
  Canvas.saveToHistory resample s = s
  \/ exists img, Canvas.saveToHistory resample s = Canvas.remember img s.
Proof.
  unfold Canvas.saveToHistory.
  destruct (Canvas.canvas s) as [c|]; [|now left].
  destruct (_ || _).
  - destruct (Canvas.getImageData _) as [img|]; [right; now exists img|now left].
  - destruct (Canvas.getImageData c) as [img|]; [right; now exists img|now left].
Qed.

Lemma undo_in_bounds (s : Canvas.State Pixels) :
  Canvas.in_bounds s -> Canvas.in_bounds (Canvas.undo resample s).
Proof.
  intros (Hl & Hi). unfold Canvas.undo.
  destruct (Canvas.historyIndex s <=? 0)%Z eqn:E; [now split|].
  apply Z.leb_gt in E.
  destruct (Canvas.canvas s); [|now split].
  destruct (Canvas.at_index _ _); [|now split].
  split; cbn [Canvas.history Canvas.historyIndex]; [exact Hl|lia].
Qed.

Lemma redo_in_bounds (s : Canvas.State Pixels) :
  Canvas.in_bounds s -> Canvas.in_bounds (Canvas.redo resample s).
Proof.
  intros (Hl & Hi). unfold Canvas.redo.
  destruct (_ <=? Canvas.historyIndex s)%Z eqn:E; [now split|].
  apply Z.leb_gt in E.
  destruct (Canvas.canvas s); [|now split].
  destruct (Canvas.at_index _ _); [|now split].
  split; cbn [Canvas.history Canvas.historyIndex]; [exact Hl|lia].
Qed.

Lemma saveToHistory_in_bounds (s : Canvas.State Pixels) :
  Canvas.in_bounds s -> Canvas.in_bounds (Canvas.saveToHistory resample s).
Proof.
  intros H. destruct (saveToHistory_cases s) as [->|(img & ->)];
    [exact H|apply remember_in_bounds].
Qed.

(** X26. The history never holds more than [MAX_HISTORY_SIZE] (20)
    images and its index always points at one of them (or is -1 when
    nothing is stored): [initCanvas] on a canvas establishes that, and
    saving, undoing, redoing and clearing keep it. *)
Theorem history_stays_in_bounds (s : Canvas.State Pixels) :
  (Canvas.canvas s <> None -> Canvas.in_bounds (Canvas.initCanvas s))
  /\ (Canvas.in_bounds s ->
      Canvas.in_bounds (Canvas.saveToHistory resample s)
      /\ Canvas.in_bounds (Canvas.undo resample s)
      /\ Canvas.in_bounds (Canvas.redo resample s)
      /\ Canvas.in_bounds (Canvas.clearCanvas resample cleared s)).
Proof.
  split.
  - intros Hc. unfold Canvas.initCanvas.
    destruct (Canvas.canvas s) as [c|]; [|congruence].
    destruct (Canvas.getImageData c); split; simpl;
      unfold Canvas.MAX_HISTORY_SIZE; lia.
  - intros H. split; [now apply saveToHistory_in_bounds|].
    split; [now apply undo_in_bounds|].
    split; [now apply redo_in_bounds|].
    unfold Canvas.clearCanvas. destruct (Canvas.canvas s); [|exact H].
    apply saveToHistory_in_bounds. exact H.
Qed.

Lemma save_regular (s : Canvas.State Pixels) (c : Canvas.ImageData Pixels) :
  Canvas.canvas s = Some c -> Canvas.regular c ->
  Canvas.saveToHistory resample s = Canvas.remember c s.
Proof.
  intros Hc ((Hw & Hw') & (Hh & Hh')). unfold Canvas.saveToHistory.
  rewrite Hc.
  assert (E1 : (Canvas.MAX_DIMENSION <? Canvas.width c)%Z = false)
    by (apply Z.ltb_ge; lia).
  assert (E2 : (Canvas.MAX_DIMENSION <? Canvas.height c)%Z = false)
    by (apply Z.ltb_ge; lia).
  rewrite E1, E2. cbn [orb]. unfold Canvas.getImageData.
  assert (E3 : (Canvas.width c =? 0)%Z = false) by (apply Z.eqb_neq; lia).
  assert (E4 : (Canvas.height c =? 0)%Z = false) by (apply Z.eqb_neq; lia).
  now rewrite E3, E4.
Qed.

Lemma restore_same_size (img c : Canvas.ImageData Pixels) :
  Canvas.width img = Canvas.width c ->
  Canvas.height img = Canvas.height c ->
  Canvas.restore resample img c = img.
Proof.
  intros Hw Hh. unfold Canvas.restore.
  rewrite Hw, Hh, !Z.eqb_refl. cbn [negb orb].
  destruct img as [w h d]. cbn in *. now subst.
Qed.

(** X27. Undo after a stroke brings back the picture before it, and
    redo brings the stroke back.  On a canvas that is not empty and not
    larger than 2000 pixels either way, whose history points at an
    image of the same size: after [saveToHistory], [undo] paints that
    image, and [redo] then paints the saved canvas again and is back
    at the state after the save. *)
Theorem undo_after_save_restores
        (s : Canvas.State Pixels) (c prev : Canvas.ImageData Pixels) :
  Canvas.canvas s = Some c ->
  Canvas.regular c ->
  Canvas.at_index (Canvas.history s) (Canvas.historyIndex s) = Some prev ->
  Canvas.width prev = Canvas.width c ->
  Canvas.height prev = Canvas.height c ->
  let s1 := Canvas.saveToHistory resample s in
  let s2 := Canvas.undo resample s1 in
  Canvas.canvas s2 = Some prev
  /\ Canvas.history s2 = Canvas.history s1
  /\ Canvas.historyIndex s2 = (Canvas.historyIndex s1 - 1)%Z
  /\ Canvas.redo resample s2 = s1.
Proof.
  intros Hc Hreg Hprev Hw Hh s1 s2.
  assert (Hidx : (0 <= Canvas.historyIndex s)%Z
                 /\ (Z.to_nat (Canvas.historyIndex s)
                     < List.length (Canvas.history s))%nat).
  { unfold Canvas.at_index in Hprev.
    destruct (Canvas.historyIndex s <? 0)%Z eqn:E; [discriminate|].
    apply Z.ltb_ge in E. split; [exact E|].
    apply nth_error_Some. congruence. }
  destruct Hidx as (Hi0 & Hi1).
  set (i := Z.to_nat (Canvas.historyIndex s)) in *.
  assert (Hs1 : s1 = Canvas.remember c s) by (now apply save_regular).
  set (pushed := (firstn (S i) (Canvas.history s) ++ [c])%list).
  assert (Hslice : Canvas.slice_to (Canvas.history s)
                                   (Canvas.historyIndex s + 1)
                   = firstn (S i) (Canvas.history s)).
  { unfold Canvas.slice_to.
    destruct (Canvas.historyIndex s + 1 <? 0)%Z eqn:E;
      [apply Z.ltb_lt in E; lia|].
    f_equal. unfold i. lia. }
  assert (Hlen : List.length pushed = S (S i)).
  { unfold pushed. rewrite length_app, length_firstn.
    cbn [List.length]. lia. }
  set (k := (List.length pushed - Canvas.MAX_HISTORY_SIZE)%nat).
  assert (Hh1 : Canvas.history s1 = skipn k pushed).
  { rewrite Hs1. unfold Canvas.remember. cbn [Canvas.history].
    now rewrite Hslice. }
  assert (Hm : exists m, List.length (skipn k pushed) = S (S m)
                         /\ (k + m = i)%nat).
  { rewrite length_skipn, Hlen. unfold k. rewrite Hlen.
    unfold Canvas.MAX_HISTORY_SIZE.
    exists (S (S i) - (S (S i) - 20) - 2)%nat. lia. }
  destruct Hm as (m & Hm & Hkm).
  assert (Hi1' : Canvas.historyIndex s1 = (Z.of_nat m + 1)%Z).
  { rewrite Hs1. unfold Canvas.remember. cbn [Canvas.historyIndex].
    rewrite Hslice. fold pushed. fold k. rewrite Hm. lia. }
  assert (Hc1 : Canvas.canvas s1 = Some c) by (now rewrite Hs1).
  assert (Hat_prev : Canvas.at_index (Canvas.history s1) (Z.of_nat m)
                     = Some prev).
  { unfold Canvas.at_index.
    destruct (Z.of_nat m <? 0)%Z eqn:E; [apply Z.ltb_lt in E; lia|].
    rewrite Nat2Z.id, Hh1, nth_error_skipn, Hkm. unfold pushed.
    rewrite nth_error_app1 by (rewrite length_firstn; lia).
    rewrite nth_error_firstn.
    assert (E' : (i <? S i)%nat = true) by (apply Nat.ltb_lt; lia).
    rewrite E'. unfold Canvas.at_index in Hprev.
    destruct (Canvas.historyIndex s <? 0)%Z; [discriminate|exact Hprev]. }
  assert (Hat_c : Canvas.at_index (Canvas.history s1) (Z.of_nat m + 1)
                  = Some c).
  { unfold Canvas.at_index.
    destruct (Z.of_nat m + 1 <? 0)%Z eqn:E; [apply Z.ltb_lt in E; lia|].
    replace (Z.to_nat (Z.of_nat m + 1)) with (S m) by lia.
    rewrite Hh1, nth_error_skipn. unfold pushed.
    rewrite nth_error_app2 by (rewrite length_firstn; lia).
    rewrite length_firstn.
    replace (k + S m - Nat.min (S i) (List.length (Canvas.history s)))%nat
      with 0%nat by lia.
    reflexivity. }
  assert (Hs2 : s2 = Canvas.mkState (Some prev) (Canvas.history s1)
                                    (Z.of_nat m)).
  { unfold s2, Canvas.undo. rewrite Hi1'.
    destruct (Z.of_nat m + 1 <=? 0)%Z eqn:E; [apply Z.leb_le in E; lia|].
    rewrite Hc1. replace (Z.of_nat m + 1 - 1)%Z with (Z.of_nat m) by lia.
    rewrite Hat_prev. now rewrite restore_same_size. }
  rewrite Hs2. cbn [Canvas.canvas Canvas.history Canvas.historyIndex].
  split; [reflexivity|]. split; [reflexivity|]. split; [lia|].
  unfold Canvas.redo. cbn [Canvas.canvas Canvas.history Canvas.historyIndex].
  rewrite Hh1 at 1. rewrite Hm.
  destruct (Z.of_nat (S (S m)) - 1 <=? Z.of_nat m)%Z eqn:E;
    [apply Z.leb_le in E; lia|].
  rewrite Hat_c. rewrite restore_same_size by (symmetry; assumption).
  destruct s1 as [c1 h1 i1]. cbn in *. now subst.
Qed.

(** X28. A save drops what could be redone: after [saveToHistory] on a
    canvas that is not empty and not larger than 2000 pixels either
    way, the history ends with the saved image, is cut after the entry
    that was current (and to the 20 newest images), and [redo] does
    nothing. *)
Theorem save_drops_redo
        (s : Canvas.State Pixels) (c : Canvas.ImageData Pixels) :
  Canvas.canvas s = Some c ->
  Canvas.regular c ->
  Canvas.in_bounds s ->
  let s1 := Canvas.saveToHistory resample s in
  Canvas.redo resample s1 = s1
  /\ Canvas.at_index (Canvas.history s1) (Canvas.historyIndex s1) = Some c
  /\ List.length (Canvas.history s1)
     = Nat.min (Z.to_nat (Canvas.historyIndex s + 2)) Canvas.MAX_HISTORY_SIZE.
Proof.
  intros Hc Hreg (Hl & Hi) s1.
  assert (Hs1 : s1 = Canvas.remember c s) by (now apply save_regular).
  destruct (remember_in_bounds c s) as (_ & Hlast & Hne).
  rewrite <- Hs1 in Hlast, Hne.
  split; [|split].
  - unfold Canvas.redo. rewrite Hlast.
    now rewrite Z.leb_refl.
  - rewrite Hlast. unfold Canvas.at_index.
    destruct (Canvas.history s1) as [|x l] eqn:Eh using rev_ind;
      [congruence|]. clear IHl.
    rewrite length_app. simpl.
    destruct (_ <? 0)%Z eqn:E; [apply Z.ltb_lt in E; lia|].
    replace (Z.to_nat (Z.of_nat (List.length l + 1) - 1))
      with (List.length l) by lia.
    rewrite nth_error_app2 by lia. rewrite Nat.sub_diag. simpl.
    f_equal.
    assert (Hlastc : last (Canvas.history s1) c = c).
    { rewrite Hs1. unfold Canvas.remember. cbn [Canvas.history].
      set (pushed := (_ ++ [c])%list).
      assert (Hp : (1 <= List.length pushed)%nat)
        by (unfold pushed; rewrite length_app; simpl; lia).
      assert (Hsk : exists front,
                 skipn (List.length pushed - Canvas.MAX_HISTORY_SIZE) pushed
                 = (front ++ [c])%list).
      { unfold pushed at 2.
        set (pre := Canvas.slice_to _ _) in *.
        assert (Hk : (List.length pushed - Canvas.MAX_HISTORY_SIZE
                      <= List.length pre)%nat).
        { unfold pushed. rewrite length_app. simpl.
          unfold Canvas.MAX_HISTORY_SIZE. lia. }
        rewrite skipn_app.
        replace (List.length pushed - Canvas.MAX_HISTORY_SIZE
                 - List.length pre)%nat with 0%nat by lia.
        now eexists. }
      destruct Hsk as (front & ->). apply last_last. }
    rewrite Eh, last_last in Hlastc. exact Hlastc.
  - rewrite Hs1. unfold Canvas.remember. cbn [Canvas.history].
    rewrite length_skipn, length_app, slice_to_length by lia.
    simpl. unfold Canvas.MAX_HISTORY_SIZE. lia.
Qed.

End CanvasProperties.

(** ** The properties on the sample rooms *)

Lemma world_lobby_reachable :
  reachable sample_words sample_ai true true world_lobby.
Proof.
  assert (E : fst (run sample_words sample_ai true true trace_lobby
                       (constructor None)) = world_lobby)
    by (vm_compute; reflexivity).
  rewrite <- E. apply reachable_run, reachable_new.
Qed.

Lemma world_sockets_reachable :
  reachable sample_words sample_ai true true world_sockets.
Proof.
  assert (E : fst (run sample_words sample_ai true true trace_sockets
                       (constructor None)) = world_sockets)
    by (vm_compute; reflexivity).
  rewrite <- E. apply reachable_run, reachable_new.
Qed.

Lemma world_round_reachable :
  reachable sample_words sample_ai true true world_round.
Proof.
  assert (E : fst (run sample_words sample_ai true true trace_round
                       (constructor None)) = world_round)
    by (vm_compute; reflexivity).
  rewrite <- E. apply reachable_run, reachable_new.
Qed.

Lemma world_half_reachable :
  reachable sample_words sample_ai true true world_half.
Proof.
  assert (E : fst (run sample_words sample_ai true true trace_half
                       (constructor None)) = world_half)
    by (vm_compute; reflexivity).
  rewrite <- E. apply reachable_run, reachable_new.
Qed.

Lemma world_guessed_reachable :
  reachable sample_words sample_ai true true world_guessed.
Proof.
  assert (E : fst (run sample_words sample_ai true true trace_guessed
                       (constructor None)) = world_guessed)
    by (vm_compute; reflexivity).
  rewrite <- E. apply reachable_run, reachable_new.
Qed.

Lemma world_ai_reachable :
  reachable sample_words sample_ai true true world_ai.
Proof.
  assert (E : fst (run sample_words sample_ai true true trace_ai
                       (constructor None)) = world_ai)
    by (vm_compute; reflexivity).
  rewrite <- E. apply reachable_run, reachable_new.
Qed.


Lemma world_noname_reachable :
  reachable sample_words sample_ai true true world_noname.
Proof.
  assert (E : fst (run sample_words sample_ai true true trace_noname
                       (constructor None)) = world_noname)
    by (vm_compute; reflexivity).
  rewrite <- E. apply reachable_run, reachable_new.
Qed.

(** A stale tick in the three-user lobby. *)
Lemma tick_in_lobby_is_noop_witness :
  storage world_lobby = Some room_lobby
  /\ isActive room_lobby = false
  /\ updateGameTimer true world_lobby = (world_lobby, [])
  /\ step sample_words sample_ai true true (Tick 7) env0 world_lobby
     = (world_lobby, []).
Proof.
  pose proof (tick_in_lobby_is_noop sample_words sample_ai true true
                world_lobby room_lobby eq_refl eq_refl) as [H1 H2].
  split; [reflexivity|]. split; [reflexivity|].
  split; [exact H1|apply H2].
Defined.

(** The stored round of the sample trace has one phase. *)
Lemma exactly_one_phase_witness :
  reachable sample_words sample_ai true true world_round
  /\ storage world_round = Some room_round
  /\ (isActive room_round = true /\ isLobby room_round = false
      \/ isActive room_round = false /\ isLobby room_round = true).
Proof.
  split; [exact world_round_reachable|]. split; [reflexivity|].
  exact (exactly_one_phase sample_words sample_ai true true
           world_round room_round world_round_reachable eq_refl).
Defined.

(** bob may not change the duration, alice may. *)
Lemma settings_update_authority_witness :
  storage world_lobby = Some room_lobby
  /\ moderator room_lobby <> "bob"
  /\ key room_lobby <> ""
  /\ handleUpdateSettings "bob" patch_duration world_lobby
     = (world_lobby, [])
  /\ fetch sample_words sample_ai true true
           (PutSettings "bob" patch_duration) env0 world_lobby
     = Replied world_lobby []
         (mkResponse 403
            (ErrorBody "Only the moderator can update settings"))
  /\ moderator room_lobby = "alice"
  /\ fst (handleUpdateSettings "alice" patch_duration world_lobby)
     = put (set_settings
              (merge_settings (settings room_lobby) patch_duration)
              room_lobby) world_lobby.
Proof.
  assert (Hb : moderator room_lobby <> "bob") by (cbv; discriminate).
  assert (Hk : key room_lobby <> "") by (cbv; discriminate).
  pose proof (settings_update_authority sample_words sample_ai true true
                world_lobby room_lobby "bob" patch_duration env0 eq_refl)
    as [Hbob _].
  pose proof (settings_update_authority sample_words sample_ai true true
                world_lobby room_lobby "alice" patch_duration env0 eq_refl)
    as [_ Halice].
  destruct (Hbob Hb) as [H1 H2]. destruct (Halice eq_refl) as [H3 _].
  split; [reflexivity|]. split; [exact Hb|]. split; [exact Hk|].
  split; [exact H1|]. split; [exact (H2 Hk)|]. split; [reflexivity|].
  now rewrite H3.
Defined.

(** alice, who draws, sees the word. *)
Lemma game_state_hides_word_witness :
  found world_round = Some room_round
  /\ exists snapshot,
       fetch sample_words sample_ai true true
             (GetGameState (Some "alice")) env0 world_round
       = Replied world_round []
           (mkResponse 200 (GameStateBody snapshot))
       /\ targetWord snapshot = Some "cat".
Proof.
  split; [reflexivity|].
  destruct (game_state_hides_word sample_words sample_ai true true
              world_round room_round (Some "alice") env0 eq_refl)
    as (snapshot & Hf & Hw).
  exists snapshot. split; [exact Hf|]. apply Hw.
  split; [reflexivity|]. exists "alice".
  repeat split. discriminate.
Defined.

(** bob's guess is recorded as correct, alice's is refused. *)
Lemma submitGuess_records_one_guess_witness :
  storage world_round = Some room_round
  /\ isActive room_round = true
  /\ currentDrawer room_round <> Some "bob"
  /\ targetWord room_round = Some "cat"
  /\ currentDrawer room_round = Some "alice"
  /\ handleGuess sample_ai true "alice" "cat" env0 world_round
     = Done world_round []
  /\ exists w' out r' g,
       handleGuess sample_ai true "bob" " Cat " env0 world_round
       = Done w' out
       /\ storage w' = Some r'
       /\ guesses r' = (guesses room_round ++ [g])%list
       /\ playerId g = "bob" /\ guess g = " Cat "
       /\ correct g = true.
Proof.
  assert (Hd : currentDrawer room_round <> Some "bob")
    by (cbv; discriminate).
  pose proof (submitGuess_records_one_guess sample_ai true "alice" "cat"
                env0 world_round room_round eq_refl) as [Halice _].
  pose proof (submitGuess_records_one_guess sample_ai true "bob" " Cat "
                env0 world_round room_round eq_refl) as [_ Hbob].
  destruct (Hbob eq_refl Hd "cat" eq_refl)
    as (w' & out & r' & g & Hg & Hs & Hgs & Hp & Ht & Hc).
  split; [reflexivity|]. split; [reflexivity|]. split; [exact Hd|].
  split; [reflexivity|]. split; [reflexivity|].
  split; [apply Halice; now right|].
  exists w', out, r', g.
  split; [exact Hg|]. split; [exact Hs|]. split; [exact Hgs|].
  split; [exact Hp|]. split; [exact Ht|]. now apply Hc.
Defined.

(** bob guesses first: carol has not guessed, the round goes on; and a
    tick afterwards ends no round with success. *)
Lemma round_ends_on_last_correct_guess_witness :
  storage world_round = Some room_round
  /\ isActive room_round = true
  /\ currentDrawer room_round <> Some "bob"
  /\ targetWord room_round = Some "cat"
  /\ Js.toLowerCase (Js.trim " CAT ") = Js.toLowerCase "cat"
  /\ no_start (at0 [Tick 7; Fetch (PostSubmitGuess "carol" "cat")])
  /\ (exists w' out r',
        handleGuess sample_ai true "bob" " CAT " env0 world_round
        = Done w' out
        /\ storage w' = Some r'
        /\ let everyone :=
             forall p, In p (users room_round) ->
                       currentDrawer room_round <> Some p ->
                       p <> sample_ai -> guessed_correctly r' p in
           (everyone ->
            count (is_roundEnd true) out = 1%nat
            /\ isActive r' = false /\ isLobby r' = true)
           /\ (~ everyone ->
               count (is_roundEnd true) out = 0%nat
               /\ (exists sc st, out = [Broadcast (MCorrectGuess "bob" sc st)])
               /\ isActive r' = true /\ isLobby r' = isLobby room_round))
  /\ (count (is_roundEnd true)
            (snd (run sample_words sample_ai true true
                      (at0 [Tick 7; Fetch (PostSubmitGuess "carol" "cat")])
                      world_round)) <= 1)%nat.
Proof.
  assert (Hd : currentDrawer room_round <> Some "bob")
    by (cbv; discriminate).
  assert (Hns : no_start (at0 [Tick 7; Fetch (PostSubmitGuess "carol" "cat")])).
  { intros x [<-|[<-|[]]]; reflexivity. }
  destruct (round_ends_on_last_correct_guess sample_words sample_ai true true
              "bob" " CAT " env0 world_round room_round "cat"
              (at0 [Tick 7; Fetch (PostSubmitGuess "carol" "cat")])
              eq_refl eq_refl Hd eq_refl eq_refl Hns) as [HA HB].
  split; [reflexivity|]. split; [reflexivity|]. split; [exact Hd|].
  split; [reflexivity|]. split; [reflexivity|]. split; [exact Hns|].
  split; [exact HA|exact HB].
Defined.





(** ** Where the specification and the code part *)


(** C2, as stated, fails: with the AI player in the room, bob's correct
    guess ends the round although the AI player, a user other than the
    drawer, has no correct guess on record. *)
Lemma round_ends_without_ai_guess :
  reachable sample_words sample_ai true true world_ai
  /\ storage world_ai = Some room_ai
  /\ In sample_ai (users room_ai)
  /\ currentDrawer room_ai <> Some sample_ai
  /\ exists w' out r',
       handleGuess sample_ai true "bob" "cat" env0 world_ai = Done w' out
       /\ storage w' = Some r'
       /\ count (is_roundEnd true) out = 1%nat
       /\ ~ guessed_correctly r' sample_ai.
Proof.
  split; [exact world_ai_reachable|]. split; [reflexivity|].
  split; [right; right; now left|]. split; [cbv; discriminate|].
  do 3 eexists. split; [vm_compute; reflexivity|].
  split; [reflexivity|]. split; [reflexivity|].
  intros (g & [<-|[]] & Hp & _). discriminate.
Qed.


(** C6, as stated, fails: the drawer who joined under the empty name
    asks for the state under that name, which equals [currentDrawer],
    and the snapshot has no word. *)
Lemma empty_name_drawer_gets_no_word :
  reachable sample_words sample_ai true true world_noname
  /\ found world_noname = Some room_noname
  /\ currentDrawer room_noname = Some ""
  /\ targetWord room_noname = Some "cat"
  /\ fetch sample_words sample_ai true true (GetGameState (Some "")) env0
           world_noname
     = Replied world_noname []
         (mkResponse 200 (GameStateBody (set_targetWord None room_noname))).
Proof.
  split; [exact world_noname_reachable|]. repeat split.
Qed.

(** C7, as stated, fails: bob, who is not the moderator, sends
    [updateSettings] over his socket; the state is unchanged and nothing
    at all is sent, so no Forbidden answer reaches him. *)
Lemma socket_settings_update_gets_no_reply :
  reachable sample_words sample_ai true true world_sockets
  /\ sessions_get (sessions world_sockets) 1 = Some bob_socket
  /\ storage world_sockets = Some room_lobby
  /\ moderator room_lobby <> userName bob_socket
  /\ step sample_words sample_ai true true
          (Message 1 (UpdateSettings patch_duration)) env0 world_sockets
     = (world_sockets, []).
Proof.
  split; [exact world_sockets_reachable|].
  split; [reflexivity|]. split; [reflexivity|].
  split; [cbv; discriminate|reflexivity].
Qed.

(** ** The further properties on the sample rooms *)

Lemma users_are_unique_witness :
  reachable sample_words sample_ai true true world_round
  /\ storage world_round = Some room_round
  /\ NoDup (users room_round).
Proof.
  split; [exact world_round_reachable|]. split; [reflexivity|].
  exact (users_are_unique sample_words sample_ai true true world_round
           room_round world_round_reachable eq_refl).
Defined.


Lemma moderator_is_a_user_witness :
  reachable sample_words sample_ai true true world_round
  /\ storage world_round = Some room_round
  /\ key room_round <> ""
  /\ In (moderator room_round) (users room_round).
Proof.
  assert (Hk : key room_round <> "") by (cbv; discriminate).
  split; [exact world_round_reachable|]. split; [reflexivity|].
  split; [exact Hk|].
  exact (moderator_is_a_user sample_words sample_ai true true world_round
           room_round world_round_reachable eq_refl Hk).
Defined.

Lemma drawer_never_in_guess_log_witness :
  reachable sample_words sample_ai true true world_guessed
  /\ storage world_guessed = Some room_guessed
  /\ isActive room_guessed = true
  /\ In (mkGuess "bob" "bob" "cat" 1000 true) (guesses room_guessed)
  /\ currentDrawer room_guessed <> Some "bob".
Proof.
  assert (Hin : In (mkGuess "bob" "bob" "cat" 1000 true)
                   (guesses room_guessed)) by (now left).
  split; [exact world_guessed_reachable|]. split; [reflexivity|].
  split; [reflexivity|]. split; [exact Hin|].
  exact (drawer_never_in_guess_log sample_words sample_ai true true
           world_guessed room_guessed (mkGuess "bob" "bob" "cat" 1000 true)
           world_guessed_reachable eq_refl eq_refl Hin).
Defined.

Lemma correct_flags_match_word_witness :
  reachable sample_words sample_ai true true world_guessed
  /\ storage world_guessed = Some room_guessed
  /\ isActive room_guessed = true
  /\ targetWord room_guessed = Some "cat"
  /\ In (mkGuess "bob" "bob" "cat" 1000 true) (guesses room_guessed)
  /\ (true = true <-> Js.toLowerCase (Js.trim "cat") = Js.toLowerCase "cat").
Proof.
  assert (Hin : In (mkGuess "bob" "bob" "cat" 1000 true)
                   (guesses room_guessed)) by (now left).
  split; [exact world_guessed_reachable|]. split; [reflexivity|].
  split; [reflexivity|]. split; [reflexivity|]. split; [exact Hin|].
  exact (correct_flags_match_word sample_words sample_ai true true
           world_guessed room_guessed (mkGuess "bob" "bob" "cat" 1000 true)
           "cat" world_guessed_reachable eq_refl eq_refl eq_refl Hin).
Defined.

(** A second [/initialize] on the sample lobby. *)
Lemma initialised_room_keeps_members_witness :
  storage world_lobby = Some room_lobby
  /\ key room_lobby <> ""
  /\ exists r' joined,
       storage (fst (step sample_words sample_ai true true
                          (Fetch (PostInitialize "room2" "mallory")) env0
                          world_lobby)) = Some r'
       /\ key r' = key room_lobby
       /\ users r' = (users room_lobby ++ joined)%list
       /\ forall u c, Dict.get (connectedUsers room_lobby) u = Some c ->
                      exists c', Dict.get (connectedUsers r') u = Some c'.
Proof.
  assert (Hk : key room_lobby <> "") by (cbv; discriminate).
  split; [reflexivity|]. split; [exact Hk|].
  exact (initialised_room_keeps_members sample_words sample_ai true true
           (Fetch (PostInitialize "room2" "mallory")) env0
           world_lobby room_lobby eq_refl Hk).
Defined.

Lemma guess_log_is_append_only_witness :
  storage world_guessed = Some room_guessed
  /\ exists r' added,
       storage (fst (step sample_words sample_ai true true
                          (Fetch (PostSubmitGuess "carol" "dog")) env0
                          world_guessed)) = Some r'
       /\ guesses r' = (guesses room_guessed ++ added)%list.
Proof.
  split; [reflexivity|].
  exact (guess_log_is_append_only sample_words sample_ai true true
           (Fetch (PostSubmitGuess "carol" "dog")) env0
           world_guessed room_guessed eq_refl eq_refl eq_refl).
Defined.

(** A tick at 60 seconds and a tick in the last second. *)
Lemma tick_in_active_round_witness :
  storage world_round = Some room_round
  /\ isActive room_round = true
  /\ 1 < timeRemaining room_round
  /\ updateGameTimer true world_round
     = (put (set_timeRemaining (60 - 1) room_round) world_round,
        [Broadcast (MTimeUpdate (60 - 1))])
  /\ storage world_last = Some room_last
  /\ timeRemaining room_last <= 1
  /\ exists r' st,
       storage (fst (updateGameTimer true world_last)) = Some r'
       /\ snd (updateGameTimer true world_last)
          = [Broadcast (MRoundEnd false (Some "cat") (Some zeroes) st)]
       /\ isActive r' = false /\ isLobby r' = true
       /\ timeRemaining r' = 60.
Proof.
  assert (H1 : 1 < timeRemaining room_round) by reflexivity.
  assert (H2 : timeRemaining room_last <= 1) by (cbv; discriminate).
  destruct (tick_in_active_round true world_round room_round
              eq_refl eq_refl) as [Hgo _].
  destruct (tick_in_active_round true world_last room_last
              eq_refl eq_refl) as [_ Hend].
  destruct (Hend H2)
    as (r' & st & Hs & Ho & Ha & Hl & _ & _ & Ht & _).
  split; [reflexivity|]. split; [reflexivity|]. split; [exact H1|].
  split; [exact (Hgo H1)|]. split; [reflexivity|]. split; [exact H2|].
  exists r', st. split; [exact Hs|]. split; [exact Ho|].
  split; [exact Ha|]. split; [exact Hl|exact Ht].
Defined.

Lemma round_end_disarms_interval_witness :
  timerInterval room_round <> 0%Z
  /\ ~ In 7%Z (intervals (fst (handleRoundEnd true room_round false
                                              world_round)))
  /\ step sample_words sample_ai true true (Tick 7) env0
          (fst (handleRoundEnd true room_round false world_round))
     = (fst (handleRoundEnd true room_round false world_round), []).
Proof.
  assert (Hn : timerInterval room_round <> 0%Z) by (cbv; discriminate).
  destruct (round_end_disarms_interval sample_words sample_ai true true
              room_round false world_round env0 eq_refl Hn)
    as (_ & Hnot & _ & Htick).
  split; [exact Hn|]. split; [exact Hnot|exact Htick].
Defined.

(** alice starts again while interval 7 of the running round is armed. *)
Lemma restart_leaves_old_interval_armed_witness :
  storage world_round = Some room_round
  /\ moderator room_round = "alice"
  /\ minPlayers (settings room_round)
     <= Js.len (connected_names room_round)
  /\ 0 < gameDuration (settings room_round)
  /\ In (timerInterval room_round) (intervals world_round)
  /\ timerInterval room_round <> intervalId env1
  /\ In 7%Z (intervals (fst (handleStartGame sample_words sample_ai true
                                             "alice" env1 world_round)))
  /\ In 8%Z (intervals (fst (handleStartGame sample_words sample_ai true
                                             "alice" env1 world_round))).
Proof.
  assert (Hn : minPlayers (settings room_round)
               <= Js.len (connected_names room_round))
    by (cbv; discriminate).
  assert (Hpos : 0 < gameDuration (settings room_round)) by reflexivity.
  assert (Harmed : In (timerInterval room_round) (intervals world_round))
    by (now left).
  assert (Hne : timerInterval room_round <> intervalId env1)
    by (cbv; discriminate).
  destruct (restart_leaves_old_interval_armed sample_words sample_ai
              true true "alice" env1 world_round room_round
              eq_refl eq_refl Hn eq_refl Hpos Harmed Hne)
    as (Hold & Hnew & _).
  split; [reflexivity|]. split; [reflexivity|]. split; [exact Hn|].
  split; [exact Hpos|]. split; [exact Harmed|]. split; [exact Hne|].
  split; [exact Hold|exact Hnew].
Defined.

Lemma only_a_start_activates_witness :
  active world_lobby = false
  /\ active (fst (step sample_words sample_ai true true
                       (Fetch (PostJoin "dave")) env0 world_lobby))
     = false.
Proof.
  split; [reflexivity|].
  exact (only_a_start_activates sample_words sample_ai true true
           (Fetch (PostJoin "dave")) env0 world_lobby eq_refl eq_refl).
Defined.

Lemma wrong_guess_only_logs_witness :
  storage world_round = Some room_round
  /\ isActive room_round = true
  /\ currentDrawer room_round <> Some "bob"
  /\ targetWord room_round = Some "cat"
  /\ Js.toLowerCase (Js.trim "dog") <> Js.toLowerCase "cat"
  /\ handleGuess sample_ai true "bob" "dog" env0 world_round
     = Done (put (set_guesses [mkGuess "bob" "bob" "dog" 1000 false]
                              room_round) world_round)
            [Broadcast (MNewGuess "bob" "dog" 1000)].
Proof.
  assert (Hd : currentDrawer room_round <> Some "bob")
    by (cbv; discriminate).
  assert (Hm : Js.toLowerCase (Js.trim "dog") <> Js.toLowerCase "cat")
    by (cbv; discriminate).
  split; [reflexivity|]. split; [reflexivity|]. split; [exact Hd|].
  split; [reflexivity|]. split; [exact Hm|].
  exact (wrong_guess_only_logs sample_ai true "bob" "dog" env0
           world_round room_round "cat" eq_refl eq_refl Hd eq_refl Hm).
Defined.

Lemma correct_guess_pays_only_two_witness :
  storage world_round = Some room_round
  /\ isActive room_round = true
  /\ currentDrawer room_round <> Some "bob"
  /\ targetWord room_round = Some "cat"
  /\ exists w' out r',
       handleGuess sample_ai true "bob" "cat" env0 world_round
       = Done w' out
       /\ storage w' = Some r'
       /\ Dict.get (scores_or_empty r') "carol"
          = Dict.get (scores_or_empty room_round) "carol".
Proof.
  assert (Hd : currentDrawer room_round <> Some "bob")
    by (cbv; discriminate).
  destruct (correct_guess_pays_only_two sample_ai true "bob" "cat" env0
              world_round room_round "cat"
              eq_refl eq_refl Hd eq_refl eq_refl)
    as (w' & out & r' & Hg & Hs & Hk).
  split; [reflexivity|]. split; [reflexivity|]. split; [exact Hd|].
  split; [reflexivity|].
  exists w', out, r'. split; [exact Hg|]. split; [exact Hs|].
  apply Hk; cbv; discriminate.
Defined.

Lemma routes_answer_not_found_witness :
  found world_new = None
  /\ fetch sample_words sample_ai true true (PostJoin "bob") env0 world_new
     = Replied world_new [] (mkResponse 404 (ErrorBody "Room not found")).
Proof.
  split; [reflexivity|].
  exact (routes_answer_not_found sample_words sample_ai true true
           (PostJoin "bob") env0 world_new eq_refl eq_refl).
Defined.

Lemma routes_refuse_and_keep_state_witness :
  found world_round = Some room_round
  /\ moderator room_round <> "bob"
  /\ fetch sample_words sample_ai true true (PostStartGame "bob") env0
           world_round
     = Replied world_round []
         (mkResponse 403
            (ErrorBody "Only the moderator can start the game"))
  /\ currentDrawer room_round <> Some "bob"
  /\ fetch sample_words sample_ai true true
           (PostUpdateDrawing "bob" "png") env0 world_round
     = Replied world_round []
         (mkResponse 403
            (ErrorBody "Only the current drawer can update the drawing"))
  /\ found world_lobby = Some room_lobby
  /\ isActive room_lobby = false
  /\ fetch sample_words sample_ai true true
           (PostSubmitGuess "bob" "cat") env0 world_lobby
     = Replied world_lobby [] (mkResponse 400 (ErrorBody "Game is not active")).
Proof.
  assert (Hm : moderator room_round <> "bob") by (cbv; discriminate).
  assert (Hd : currentDrawer room_round <> Some "bob")
    by (cbv; discriminate).
  destruct (routes_refuse_and_keep_state sample_words sample_ai true true
              "bob" "png" env0 world_round room_round eq_refl)
    as (H1 & _ & _ & _ & H5).
  destruct (routes_refuse_and_keep_state sample_words sample_ai true true
              "bob" "cat" env0 world_lobby room_lobby eq_refl)
    as (_ & H2 & _).
  split; [reflexivity|]. split; [exact Hm|]. split; [exact (H1 Hm)|].
  split; [exact Hd|]. split; [exact (H5 eq_refl Hd)|].
  split; [reflexivity|]. split; [reflexivity|exact (H2 eq_refl)].
Defined.

(** alice alone asks for a round: the answer is success, nothing starts. *)
Lemma start_route_reports_success_without_round_witness :
  found world_alone = Some room_alone
  /\ moderator room_alone = "alice"
  /\ Js.len (connected_names room_alone) < minPlayers (settings room_alone)
  /\ fetch sample_words sample_ai true true (PostStartGame "alice") env0
           world_alone
     = Replied world_alone [] (mkResponse 200 SuccessBody).
Proof.
  assert (Hn : Js.len (connected_names room_alone)
               < minPlayers (settings room_alone)) by reflexivity.
  split; [reflexivity|]. split; [reflexivity|]. split; [exact Hn|].
  exact (start_route_reports_success_without_round sample_words sample_ai
           true true "alice" env0 world_alone room_alone
           eq_refl eq_refl Hn).
Defined.


Lemma settings_update_is_idempotent_witness :
  storage world_lobby = Some room_lobby
  /\ moderator room_lobby = "alice"
  /\ storage (fst (handleUpdateSettings "alice" patch_duration
                     (fst (handleUpdateSettings "alice" patch_duration
                                                world_lobby))))
     = storage (fst (handleUpdateSettings "alice" patch_duration
                                          world_lobby))
  /\ storage (fst (handleUpdateSettings "alice" no_patch world_lobby))
     = Some room_lobby.
Proof.
  split; [reflexivity|]. split; [reflexivity|].
  exact (settings_update_is_idempotent "alice" patch_duration world_lobby
           room_lobby eq_refl eq_refl).
Defined.

Lemma drawing_update_stores_and_broadcasts_witness :
  storage world_round = Some room_round
  /\ isActive room_round = true
  /\ currentDrawer room_round = Some "alice"
  /\ currentDrawer room_round <> Some "bob"
  /\ aiEnabled (settings room_round) <> Some true
  /\ handleDrawingUpdate sample_words sample_ai true "bob" "png" env0
                         world_round
     = (world_round, [])
  /\ handleDrawingUpdate sample_words sample_ai true "alice" "png" env0
                         world_round
     = (put (set_drawingData "png" room_round) world_round,
        [Broadcast (MDrawingUpdate "png")]).
Proof.
  assert (Hd : currentDrawer room_round <> Some "bob")
    by (cbv; discriminate).
  assert (Hoff : aiEnabled (settings room_round) <> Some true)
    by (cbv; discriminate).
  destruct (drawing_update_stores_and_broadcasts sample_words sample_ai
              true "bob" "png" env0 world_round room_round eq_refl)
    as [Hbob _].
  destruct (drawing_update_stores_and_broadcasts sample_words sample_ai
              true "alice" "png" env0 world_round room_round eq_refl)
    as [_ Halice].
  destruct (Halice eq_refl eq_refl) as [_ Hexact].
  split; [reflexivity|]. split; [reflexivity|]. split; [reflexivity|].
  split; [exact Hd|]. split; [exact Hoff|].
  split; [exact (Hbob (or_intror Hd))|exact (Hexact (or_introl Hoff))].
Defined.





(** dave connects while alice draws "cat": everyone is sent the word. *)
Lemma room_broadcasts_carry_the_word_witness :
  found world_round = Some room_round
  /\ isActive room_round = true
  /\ targetWord room_round = Some "cat"
  /\ exists r1,
       snd (handleSession 5 "room1" "dave" world_round)
       = [Broadcast (MUserConnectionStatus "dave" true r1);
          Send 5 (MInitialize (Some r1))]
       /\ targetWord r1 = Some "cat".
Proof.
  destruct (room_broadcasts_carry_the_word sample_words sample_ai true true
              5 "room1" "dave" patch_duration bob_socket env0 world_round
              room_round "cat" eq_refl eq_refl eq_refl) as (H1 & _).
  split; [reflexivity|]. split; [reflexivity|]. split; [reflexivity|].
  exact H1.
Defined.

Lemma start_picks_word_and_connected_drawer_witness :
  reachable sample_words sample_ai true true world_lobby
  /\ storage world_lobby = Some room_lobby
  /\ moderator room_lobby = "alice"
  /\ 0 < minPlayers (settings room_lobby)
  /\ minPlayers (settings room_lobby)
     <= Js.len (connected_names room_lobby)
  /\ sample_words <> []
  /\ exists r' word drawer,
       storage (fst (handleStartGame sample_words sample_ai true "alice"
                                     env1 world_lobby)) = Some r'
       /\ targetWord r' = Some word /\ In word sample_words
       /\ currentDrawer r' = Some drawer
       /\ Dict.get (connectedUsers room_lobby) drawer = Some true.
Proof.
  assert (Hpos : 0 < minPlayers (settings room_lobby)) by reflexivity.
  assert (Hn : minPlayers (settings room_lobby)
               <= Js.len (connected_names room_lobby))
    by (cbv; discriminate).
  assert (Hw : sample_words <> []) by discriminate.
  split; [exact world_lobby_reachable|]. split; [reflexivity|].
  split; [reflexivity|]. split; [exact Hpos|]. split; [exact Hn|].
  split; [exact Hw|].
  exact (start_picks_word_and_connected_drawer sample_words sample_ai
           true true "alice" env1 world_lobby room_lobby
           world_lobby_reachable eq_refl eq_refl Hpos Hn Hw).
Defined.

(** ** The drawing history on the sample canvas *)

Lemma canvas_state_in_bounds : Canvas.in_bounds canvas_state.
Proof. split; cbn; unfold Canvas.MAX_HISTORY_SIZE; lia. Qed.

Lemma picture_b_regular : Canvas.regular picture_b.
Proof. split; cbn; unfold Canvas.MAX_DIMENSION; lia. Qed.

Lemma history_stays_in_bounds_witness :
  Canvas.canvas canvas_state <> None
  /\ Canvas.in_bounds canvas_state
  /\ Canvas.in_bounds (Canvas.initCanvas canvas_state)
  /\ Canvas.in_bounds (Canvas.saveToHistory keep_pixels canvas_state)
  /\ Canvas.in_bounds (Canvas.undo keep_pixels canvas_state)
  /\ Canvas.in_bounds (Canvas.redo keep_pixels canvas_state)
  /\ Canvas.in_bounds
       (Canvas.clearCanvas keep_pixels blank_pixels canvas_state).
Proof.
  assert (Hc : Canvas.canvas canvas_state <> None) by discriminate.
  destruct (history_stays_in_bounds string keep_pixels blank_pixels
              canvas_state) as [Hinit Hkeep].
  split; [exact Hc|]. split; [exact canvas_state_in_bounds|].
  split; [exact (Hinit Hc)|]. exact (Hkeep canvas_state_in_bounds).
Defined.

(** With [picture_a] stored and [picture_b] drawn: save, undo, redo. *)
Lemma undo_after_save_restores_witness :
  Canvas.canvas canvas_state = Some picture_b
  /\ Canvas.regular picture_b
  /\ Canvas.at_index (Canvas.history canvas_state)
                     (Canvas.historyIndex canvas_state) = Some picture_a
  /\ Canvas.canvas
       (Canvas.undo keep_pixels
          (Canvas.saveToHistory keep_pixels canvas_state))
     = Some picture_a
  /\ Canvas.redo keep_pixels
       (Canvas.undo keep_pixels
          (Canvas.saveToHistory keep_pixels canvas_state))
     = Canvas.saveToHistory keep_pixels canvas_state.
Proof.
  destruct (undo_after_save_restores string keep_pixels canvas_state
              picture_b picture_a eq_refl picture_b_regular eq_refl
              eq_refl eq_refl) as (H1 & _ & _ & H4).
  split; [reflexivity|]. split; [exact picture_b_regular|].
  split; [reflexivity|]. split; [exact H1|exact H4].
Defined.

Lemma save_drops_redo_witness :
  Canvas.canvas canvas_state = Some picture_b
  /\ Canvas.regular picture_b
  /\ Canvas.in_bounds canvas_state
  /\ Canvas.redo keep_pixels (Canvas.saveToHistory keep_pixels canvas_state)
     = Canvas.saveToHistory keep_pixels canvas_state
  /\ List.length
       (Canvas.history (Canvas.saveToHistory keep_pixels canvas_state))
     = 2%nat.
Proof.
  destruct (save_drops_redo string keep_pixels canvas_state picture_b
              eq_refl picture_b_regular canvas_state_in_bounds)
    as (H1 & _ & H3).
  split; [reflexivity|]. split; [exact picture_b_regular|].
  split; [exact canvas_state_in_bounds|]. split; [exact H1|exact H3].
Defined.
